(** * markdown-magic: the Markdown to HTML converter [markdown_to_html.py]

    A shallow embedding of the converter and the properties of its
    specification.  Python [str] values are lists of code points; the
    development covers texts whose code points are below 256, so that a
    code point is an [ascii] and the character classes used by the source
    ([str.lower], [str.strip], the regular-expression classes [\s] and [.])
    are written out in full. *)

From Stdlib Require Import Ascii String NArith Lia.
From stdpp Require Import base option list gmap strings.

Open Scope list_scope.

(** ** Texts *)

Abbreviation text := (list ascii).

Definition txt (s : string) : text := list_ascii_of_string s.

Definition code (c : ascii) : N := N_of_ascii c.

Definition chr (n : N) : ascii := ascii_of_N n.

Definition newline : ascii := chr 10.
Definition dquote : ascii := chr 34.
Definition hyphen : ascii := chr 45.
Definition lt_sign : ascii := chr 60.
Definition gt_sign : ascii := chr 62.
Definition slash : ascii := chr 47.
Definition colon : ascii := chr 58.
Definition h_lower : ascii := chr 104.
Definition h_upper : ascii := chr 72.

Definition in_range (lo hi : N) (c : ascii) : bool :=
  ((lo <=? code c) && (code c <=? hi))%N.

(** [\s] of a [str] pattern and [str.isspace]: the code points below 256
    that Python counts as whitespace. *)
Definition isspace (c : ascii) : bool :=
  in_range 9 13 c || in_range 28 32 c
  || (code c =? 133)%N || (code c =? 160)%N.

(** [.] without DOTALL: everything but the line feed. *)
Definition isdot (c : ascii) : bool := negb (code c =? 10)%N.

(** One code point of [str.lower]. *)
Definition lower_char (c : ascii) : ascii :=
  if in_range 65 90 c || in_range 192 214 c || in_range 216 222 c
  then chr (code c + 32) else c.

Definition lower (s : text) : text := map lower_char s.

(** [[1-6]] *)
Definition is_level (c : ascii) : bool := in_range 49 54 c.

(** [[A-Za-z0-9-_]] *)
Definition is_key_char (c : ascii) : bool :=
  in_range 65 90 c || in_range 97 122 c || in_range 48 57 c
  || (code c =? 45)%N || (code c =? 95)%N.

Fixpoint starts_with (p s : text) : bool :=
  match p, s with
  | [], _ => true
  | a :: p', b :: s' => if decide (a = b) then starts_with p' s' else false
  | _ :: _, [] => false
  end.

(** [str.strip()] *)
Fixpoint lstrip (s : text) : text :=
  match s with
  | c :: s' => if isspace c then lstrip s' else s
  | [] => []
  end.

Definition rstrip (s : text) : text := reverse (lstrip (reverse s)).

Definition strip (s : text) : text := rstrip (lstrip s).

(** [str.split('\n')] *)
Fixpoint split_lines (s : text) : list text :=
  match s with
  | [] => [[]]
  | c :: s' =>
      if decide (c = newline) then [] :: split_lines s'
      else match split_lines s' with
           | l :: ls => (c :: l) :: ls
           | [] => [[c]]
           end
  end.

(** [s.replace(old, new)]: the occurrences of [old] are found from the
    left and do not overlap.  [skip] counts the code points of the current
    occurrence still to be passed over. *)
Fixpoint replace_from (skip : nat) (old new s : text) : text :=
  match s with
  | [] => []
  | c :: s' =>
      match skip with
      | S k => replace_from k old new s'
      | O =>
          if starts_with old s
          then new ++ replace_from (length old - 1) old new s'
          else c :: replace_from 0 old new s'
      end
  end.

(** With an empty [old] Python puts [new] before every code point and at
    the end. *)
Definition replace (old new s : text) : text :=
  match old with
  | [] => new ++ flat_map (fun c => c :: new) s
  | _ :: _ => replace_from 0 old new s
  end.

(** ** The heading annotator *)

Record toc_entry := TocEntry { title : text; anchor : text }.

(** [re.sub(r'\s+', '-', s)]: every maximal run of whitespace becomes one
    hyphen; [in_run] says the previous code point was whitespace. *)
Fixpoint sub_ws (in_run : bool) (s : text) : text :=
  match s with
  | [] => []
  | c :: s' =>
      if isspace c
      then (if in_run then sub_ws true s' else hyphen :: sub_ws true s')
      else c :: sub_ws false s'
  end.

Definition make_anchor (t : text) : text := sub_ws false (lower t).

(** The closing tag [</hN>] and the two forms of a heading. *)
Definition close_tag (level : ascii) : text :=
  [lt_sign; slash; h_lower; level; gt_sign].

Definition bare_heading (level : ascii) (t : text) : text :=
  [lt_sign; h_lower; level; gt_sign] ++ t ++ close_tag level.

Definition id_heading (level : ascii) (a t : text) : text :=
  [lt_sign; h_lower; level] ++ txt " id=" ++ [dquote] ++ a
  ++ [dquote; gt_sign] ++ t ++ close_tag level.

(** [(.*?)</h\1>]: the shortest run of [.] that is followed by the closing
    tag of the same level. *)
Fixpoint find_close (level : ascii) (s : text) : option text :=
  if starts_with (close_tag level) s then Some []
  else match s with
       | [] => None
       | c :: s' =>
           if isdot c then option_map (cons c) (find_close level s')
           else None
       end.

(** [<h([1-6])>(.*?)</h\1>] tried at the head of [s]. *)
Definition match_heading (s : text) : option (ascii * text) :=
  match s with
  | a :: b :: level :: d :: rest =>
      if bool_decide (a = lt_sign) && bool_decide (b = h_lower)
         && is_level level && bool_decide (d = gt_sign)
      then option_map (pair level) (find_close level rest)
      else None
  | _ => None
  end.

(** [heading_pattern.findall]: the matches from the left, the search
    resuming after the end of each match; [skip] counts the code points of
    the last match still to be passed over. *)
Fixpoint findall_from (skip : nat) (s : text) : list (ascii * text) :=
  match s with
  | [] => []
  | c :: s' =>
      match skip with
      | S k => findall_from k s'
      | O =>
          match match_heading s with
          | Some (level, t) =>
              (level, t) :: findall_from (length (bare_heading level t) - 1) s'
          | None => findall_from 0 s'
          end
      end
  end.

Definition findall (s : text) : list (ascii * text) := findall_from 0 s.

(** One turn of the loop of [generate_toc]. *)
Definition toc_step (st : list toc_entry * text) (m : ascii * text)
  : list toc_entry * text :=
  let '(toc, html_content) := st in
  let '(level, t) := m in
  let a := make_anchor t in
  (toc ++ [TocEntry t a],
   replace (bare_heading level t) (id_heading level a t) html_content).

Definition generate_toc (html_content : text) : list toc_entry * text :=
  fold_left toc_step (findall html_content) ([], html_content).

(** ** Documents as code points and headings

    What the annotator is specified to return: the input with every
    matched heading rewritten where it stands.  [annotate] writes the
    rewritten heading at each match of the scan; [parse] and [render]
    split this in two, to follow the loop of [generate_toc], which
    rewrites the headings one title at a time. *)

Definition toc_of (m : ascii * text) : toc_entry :=
  TocEntry m.2 (make_anchor m.2).

Definition annotated (m : ascii * text) : text :=
  id_heading m.1 (make_anchor m.2) m.2.

Fixpoint annotate_from (skip : nat) (s : text) : text :=
  match s with
  | [] => []
  | c :: s' =>
      match skip with
      | S k => annotate_from k s'
      | O =>
          match match_heading s with
          | Some (level, t) =>
              annotated (level, t)
              ++ annotate_from (length (bare_heading level t) - 1) s'
          | None => c :: annotate_from 0 s'
          end
      end
  end.

Definition annotate (s : text) : text := annotate_from 0 s.

Inductive item :=
  | Chr (c : ascii)
  | Heading (level : ascii) (t : text).

Fixpoint parse_from (skip : nat) (s : text) : list item :=
  match s with
  | [] => []
  | c :: s' =>
      match skip with
      | S k => parse_from k s'
      | O =>
          match match_heading s with
          | Some (level, t) =>
              Heading level t
              :: parse_from (length (bare_heading level t) - 1) s'
          | None => Chr c :: parse_from 0 s'
          end
      end
  end.

Definition parse (s : text) : list item := parse_from 0 s.

(** The headings selected by [done] carry their identifier. *)
Definition render_item (done : ascii * text -> bool) (i : item) : text :=
  match i with
  | Chr c => [c]
  | Heading level t =>
      if done (level, t) then annotated (level, t) else bare_heading level t
  end.

Definition render (done : ascii * text -> bool) (d : list item) : text :=
  flat_map (render_item done) d.

Definition headings_of (d : list item) : list (ascii * text) :=
  omap (fun i => match i with
                 | Chr _ => None
                 | Heading level t => Some (level, t)
                 end) d.

(** No scan matches where a document has a plain code point. *)
Fixpoint gaps_ok (d : list item) : Prop :=
  match d with
  | [] => True
  | Chr c :: d' =>
      match_heading (c :: render (fun _ => false) d') = None /\ gaps_ok d'
  | Heading _ _ :: d' => gaps_ok d'
  end.

(** [lt_then f s]: somewhere in [s] a [<] is followed by a code point
    in [f]. *)
Fixpoint lt_then (f : ascii -> bool) (s : text) : bool :=
  match s with
  | [] => false
  | a :: s' =>
      (bool_decide (a = lt_sign) && from_option f false (head s'))
      || lt_then f s'
  end.

Definition is_h (c : ascii) : bool :=
  bool_decide (c = h_lower) || bool_decide (c = h_upper).

(** A title that holds the start of a heading tag, [<h] or [<H]. *)
Definition opens_heading (t : text) : bool := lt_then is_h t.

(** No [<h] in [s]. *)
Definition calm (s : text) : bool :=
  negb (lt_then (fun c => bool_decide (c = h_lower)) s).

(** The closing tag does not start inside the title. *)
Fixpoint closes_first (level : ascii) (t : text) : bool :=
  match t with
  | [] => true
  | _ :: t' =>
      negb (starts_with (close_tag level) (t ++ close_tag level))
      && closes_first level t'
  end.

(** What every match of the scan satisfies. *)
Definition heading_ok (m : ascii * text) : Prop :=
  is_level m.1 = true /\ Forall (fun c => isdot c = true) m.2
  /\ closes_first m.1 m.2 = true.

(** A tag: [<h], then no further [<h], then [>] at the end. *)
Definition quiet_tag (x : text) : Prop :=
  exists y, x = lt_sign :: h_lower :: y
            /\ calm y = true /\ last (h_lower :: y) = Some gt_sign.

(** ** The metadata extractor *)

(** The longest prefix of [s] in the class [f], and what follows it: a
    greedy [f*]. *)
Fixpoint span (f : ascii -> bool) (s : text) : text * text :=
  match s with
  | c :: s' => if f c then let '(a, b) := span f s' in (c :: a, b) else ([], s)
  | [] => ([], [])
  end.

(** [\s*(.+)\s*$] on the rest [r] of a line, giving group 2.  The greedy
    [\s*] takes the whole leading whitespace and the greedy [.+] everything
    after it, which leaves the last [\s*] empty at the end of the line.  When
    nothing is left for [.+], the first [\s*] gives back its last code point
    to it; when [r] is empty there is no match. *)
Definition value_group (r : text) : option text :=
  match lstrip r with
  | c :: v => Some (c :: v)
  | [] => match last r with
          | Some c => Some [c]
          | None => None
          end
  end.

(** [metadata_pattern.match(line)] for
    [^\s*([A-Za-z0-9-_]+):\s*(.+)\s*$], giving groups 1 and 2.  A line is
    an element of [split_lines] and holds no line feed, so [.] takes any
    of its code points and [$] is its end.  The classes [\s] and
    [[A-Za-z0-9-_]] are disjoint and the colon is in neither: the leading
    whitespace and the key are the longest runs and no shorter one leads
    to a match. *)
Definition match_metadata (line : text) : option (text * text) :=
  let '(_, s1) := span isspace line in
  let '(key, s2) := span is_key_char s1 in
  match key, s2 with
  | _ :: _, c :: r =>
      if bool_decide (c = colon)
      then option_map (pair key) (value_group r)
      else None
  | _, _ => None
  end.

(** One turn of the loop of [extract_metadata]. *)
Definition metadata_step (metadata : gmap text text) (line : text)
  : gmap text text :=
  match match_metadata line with
  | Some (key, value) => <[strip key := strip value]> metadata
  | None => metadata
  end.

(** [extract_metadata] without its two log entries, which
    [extract_metadata_io] adds. *)
Definition extract_metadata (markdown_content : text) : gmap text text :=
  fold_left metadata_step (split_lines markdown_content) ∅.

(** ** Files, the log and errors *)

(** A path that is not in [files] does not exist; one that is
    [Unreadable] exists and fails to open or to decode with an error other
    than [FileNotFoundError]. *)
Inductive file := Readable (content : text) | Unreadable.

Inductive exn :=
  | FileNotFoundError
  | OSError
  | JSONDecodeError
  | TypeError
  | MarkdownError
  | TemplateError.

Inductive result (A : Type) :=
  | Ok (a : A)
  | Raise (e : exn).
Arguments Ok {A} a.
Arguments Raise {A} e.

Inductive log_level := INFO | ERROR.

Inductive message :=
  | ReadingFile (file_path : text)
  | FileNotFound (file_path : text)
  | ConvertingMarkdown
  | WritingFile (file_path : text)
  | ExtractingMetadata
  | MetadataExtracted (metadata : gmap text text)
  | GeneratingToc
  | ApplyingTemplate
  | LoadedConfiguration (file_path : text)
  | ConversionSuccessful.

(** [clock] gives the time stamp of the n-th log entry ([%(asctime)s]);
    [entropy] is the state of the random generator of the process, which
    the operating system seeds when the process starts and which a
    template can draw from (the [random] filter and [lipsum] of the
    template engine); [writes] lists the calls of [file.write], the
    latest first. *)
Record world := World {
  files : gmap text file;
  clock : nat -> N;
  entropy : N;
  log : list (N * log_level * message);
  writes : list (text * text)
}.

(** A computation changes the world and returns or raises. *)
Definition io (A : Type) : Type := world -> result A * world.

Definition raise {A} (e : exn) : io A := fun w => (Raise e, w).

Definition lift {A} (r : result A) : io A := fun w => (r, w).

Global Instance io_ret : MRet io := fun A a w => (Ok a, w).

Global Instance io_bind : MBind io := fun A B k m w =>
  match m w with
  | (Ok a, w') => k a w'
  | (Raise e, w') => (Raise e, w')
  end.

(** [try: m except FileNotFoundError: handler] *)
Definition except_not_found {A} (m handler : io A) : io A :=
  fun w => match m w with
           | (Raise FileNotFoundError, w') => handler w'
           | r => r
           end.

Definition logging (level : log_level) (msg : message) : io unit :=
  fun w => (Ok tt,
            World (files w) (clock w) (entropy w)
                  (log w ++ [(clock w (length (log w)), level, msg)])
                  (writes w)).

(** [open(file_path, 'r', encoding='utf-8')] followed by [read()]. *)
Definition open_read (file_path : text) : io text :=
  fun w => match files w !! file_path with
           | Some (Readable content) => (Ok content, w)
           | Some Unreadable => (Raise OSError, w)
           | None => (Raise FileNotFoundError, w)
           end.

(** [None] is the result for a missing file. *)
Definition read_file (file_path : text) : io (option text) :=
  logging INFO (ReadingFile file_path) ;;
  except_not_found
    (content ← open_read file_path; mret (Some content))
    (logging ERROR (FileNotFound file_path) ;; mret None).

Definition open_write (file_path content : text) : io unit :=
  fun w => (Ok tt,
            World (<[file_path := Readable content]> (files w)) (clock w)
                  (entropy w) (log w) ((file_path, content) :: writes w)).

Definition write_file (file_path content : text) : io unit :=
  logging INFO (WritingFile file_path) ;;
  open_write file_path content.

Definition extract_metadata_io (markdown_content : text)
  : io (gmap text text) :=
  logging INFO ExtractingMetadata ;;
  let metadata := extract_metadata markdown_content in
  logging INFO (MetadataExtracted metadata) ;;
  mret metadata.

Definition generate_toc_io (html_content : text)
  : io (list toc_entry * text) :=
  logging INFO GeneratingToc ;;
  mret (generate_toc html_content).

(** [m] run in [w] gives [r] and writes [wr], or nothing. *)
Definition write_to (wr : option (text * text)) (fs : gmap text file)
  : gmap text file :=
  match wr with
  | Some (file_path, content) => <[file_path := Readable content]> fs
  | None => fs
  end.

Definition effect {A} (m : io A) (w : world) (r : result A)
    (wr : option (text * text)) : Prop :=
  exists w', m w = (r, w')
             /\ files w' = write_to wr (files w)
             /\ writes w' = option_list wr ++ writes w
             /\ entropy w' = entropy w.

(** ** Command line and configuration *)

(** The command line as typed: the two positional arguments and the
    options that were given. *)
Record command_line := CommandLine {
  cl_input : text;
  cl_output : text;
  cl_css : option text;
  cl_template : option text;
  cl_config : option text
}.

Record namespace := Namespace {
  args_input : text;
  args_output : text;
  args_css : option text;
  args_template : text;
  args_config : text
}.

Definition default_template : text := txt "templates/default_template.html".

(** [parser.parse_args()] with the defaults of the three [add_argument]
    calls. *)
Definition parse_args (cl : command_line) : namespace :=
  Namespace (cl_input cl) (cl_output cl)
            (cl_css cl)
            (default (default_template) (cl_template cl))
            (default (txt "config.json") (cl_config cl)).

(** Truth value of a [str] and of [None]. *)
Definition truthy (s : option text) : bool :=
  match s with
  | Some (_ :: _) => true
  | _ => false
  end.

(** [a or b] *)
Definition py_or (a b : option text) : option text :=
  if truthy a then a else b.

(** [css_file = args.css or config.get('css')] *)
Definition css_file (args : namespace) (config : gmap text text)
  : option text :=
  py_or (args_css args) (config !! txt "css").

(** [template_file = args.template or
     config.get('template', 'templates/default_template.html')] *)
Definition template_file (args : namespace) (config : gmap text text)
  : text :=
  if truthy (Some (args_template args)) then args_template args
  else default default_template (config !! txt "template").

(** ** Template rendering *)

(** The values bound to template variables. *)
Inductive value :=
  | VStr (s : text)
  | VNone
  | VToc (toc : list toc_entry).

Definition opt_value (s : option text) : value :=
  match s with
  | Some c => VStr c
  | None => VNone
  end.

(** A call [f(k1=v1, ..., **mapping)]: a key of [mapping] that is also one
    of the explicit keywords is a [TypeError], raised by the call itself. *)
Definition call_kwargs (explicit : list (text * value))
    (mapping : gmap text text) : result (gmap text value) :=
  if existsb (fun kv => bool_decide (is_Some (mapping !! kv.1))) explicit
  then Raise TypeError
  else Ok (list_to_map explicit ∪ (VStr <$> mapping)).

(** The state of the random generator that a rendering template sees. *)
Definition random_state : io N := fun w => (Ok (entropy w), w).

(** [os.path.exists] *)
Definition path_exists (file_path : text) : io bool :=
  fun w => (Ok (bool_decide (is_Some (files w !! file_path))), w).

(** ** The pipeline

    The Markdown renderer, the JSON reader and the template engine are
    libraries, not code of this program: they are the parameter [lib],
    functions of their arguments that return or raise.  The rendering of
    a template is a function of the context and of the random state of
    the process as well, since a template can ask for random values.  [json_load] stands for
    [json.load] on the content of the file, for configurations that are
    flat objects of strings. *)
Record libraries := Libraries {
  template : Type;
  markdown_markdown : text -> list text -> result text;
  json_load : text -> result (gmap text text);
  jinja_Template : text -> result template;
  jinja_render : template -> gmap text value -> N -> result text
}.

Section Pipeline.

Variable lib : libraries.

Definition convert_markdown_to_html (markdown_content : text) : io text :=
  logging INFO ConvertingMarkdown ;;
  lift (markdown_markdown lib markdown_content [txt "toc"]).

(** [Template(None)], for a template file that does not exist, is a
    [TypeError] of the engine. *)
Definition apply_template (html_content : text)
    (metadata : gmap text text) (toc : list toc_entry)
    (template_path : text) (css_content : option text) : io text :=
  logging INFO ApplyingTemplate ;;
  template_str ← read_file template_path;
  tpl ← match template_str with
        | Some s => lift (jinja_Template lib s)
        | None => raise TypeError
        end;
  kwargs ← lift (call_kwargs
                   [(txt "html_content", VStr html_content);
                    (txt "css_content", opt_value css_content);
                    (txt "toc", VToc toc)]
                   metadata);
  seed ← random_state;
  lift (jinja_render lib tpl kwargs seed).

(** Lines 68 to 72 of [main]. *)
Definition load_config (args : namespace) : io (gmap text text) :=
  found ← path_exists (args_config args);
  if found : bool then
    content ← open_read (args_config args);
    config ← lift (json_load lib content);
    logging INFO (LoadedConfiguration (args_config args)) ;;
    mret config
  else mret ∅.

(** Lines 93 to 95 of [main]. *)
Definition finish (args : namespace) (config : gmap text text)
    (html_content : text) (metadata : gmap text text)
    (toc : list toc_entry) (css_content : option text) : io unit :=
  final_html ← apply_template html_content metadata toc
                 (template_file args config) css_content;
  write_file (args_output args) final_html ;;
  logging INFO ConversionSuccessful.

Definition main (cl : command_line) : io unit :=
  let args := parse_args cl in
  config ← load_config args;
  markdown_content ← read_file (args_input args);
  match markdown_content with
  | None => mret tt
  | Some markdown_content =>
      metadata ← extract_metadata_io markdown_content;
      html_content ← convert_markdown_to_html markdown_content;
      '(toc, html_content) ← generate_toc_io html_content;
      match css_file args config with
      | Some (c :: p) =>
          css_content ← read_file (c :: p);
          match css_content with
          | None => mret tt
          | Some css_content =>
              finish args config html_content metadata toc (Some css_content)
          end
      | _ => finish args config html_content metadata toc None
      end
  end.

(** *** What a run depends on

    [outcome] is the result of [main] and the one file it writes, if
    any, as a function of the files and of the random state: of neither
    the clock nor the log. *)

(** [open_read] and [read_file] on the files [fs]. *)
Definition content_of (fs : gmap text file) (file_path : text)
  : result (option text) :=
  match fs !! file_path with
  | Some (Readable content) => Ok (Some content)
  | Some Unreadable => Raise OSError
  | None => Ok None
  end.

Definition config_of (args : namespace) (fs : gmap text file)
  : result (gmap text text) :=
  match content_of fs (args_config args) with
  | Ok (Some content) => json_load lib content
  | Ok None => Ok ∅
  | Raise e => Raise e
  end.

Definition template_outcome (fs : gmap text file) (seed : N)
    (html_content : text)
    (metadata : gmap text text) (toc : list toc_entry)
    (template_path : text) (css_content : option text) : result text :=
  match content_of fs template_path with
  | Raise e => Raise e
  | Ok None => Raise TypeError
  | Ok (Some s) =>
      match jinja_Template lib s with
      | Raise e => Raise e
      | Ok tpl =>
          match call_kwargs
                  [(txt "html_content", VStr html_content);
                   (txt "css_content", opt_value css_content);
                   (txt "toc", VToc toc)]
                  metadata with
          | Raise e => Raise e
          | Ok kwargs => jinja_render lib tpl kwargs seed
          end
      end
  end.

Definition finish_outcome (args : namespace) (fs : gmap text file) (seed : N)
    (config : gmap text text) (html_content : text)
    (metadata : gmap text text) (toc : list toc_entry)
    (css_content : option text) : result unit * option (text * text) :=
  match template_outcome fs seed html_content metadata toc
          (template_file args config) css_content with
  | Raise e => (Raise e, None)
  | Ok final_html => (Ok tt, Some (args_output args, final_html))
  end.

Definition outcome (cl : command_line) (fs : gmap text file) (seed : N)
  : result unit * option (text * text) :=
  let args := parse_args cl in
  match config_of args fs with
  | Raise e => (Raise e, None)
  | Ok config =>
      match content_of fs (args_input args) with
      | Raise e => (Raise e, None)
      | Ok None => (Ok tt, None)
      | Ok (Some markdown_content) =>
          match markdown_markdown lib markdown_content [txt "toc"] with
          | Raise e => (Raise e, None)
          | Ok html_content =>
              let metadata := extract_metadata markdown_content in
              let '(toc, html_content) := generate_toc html_content in
              match css_file args config with
              | Some (c :: p) =>
                  match content_of fs (c :: p) with
                  | Raise e => (Raise e, None)
                  | Ok None => (Ok tt, None)
                  | Ok (Some css_content) =>
                      finish_outcome args fs seed config html_content metadata
                        toc (Some css_content)
                  end
              | _ =>
                  finish_outcome args fs seed config html_content metadata toc
                    None
              end
          end
      end
  end.


End Pipeline.

(** ** A JSON reader and a template engine to run the pipeline on

    [flat_json_load] reads an object of strings written without escapes
    and rejects every other text; [plain_render] puts the style sheet and
    the body after the text of the template. *)

Inductive json_state :=
  | JStart
  | JKeyOrEnd
  | JKey (key : text)
  | JColon (key : text)
  | JBeforeValue (key : text)
  | JValue (key value : text)
  | JCommaOrEnd
  | JBeforeKey
  | JDone.

Definition json_space (c : ascii) : bool :=
  (code c =? 32)%N || (code c =? 9)%N || (code c =? 10)%N || (code c =? 13)%N.

Fixpoint json_scan (st : json_state) (m : gmap text text) (s : text)
  : result (gmap text text) :=
  match s with
  | [] => match st with JDone => Ok m | _ => Raise JSONDecodeError end
  | c :: s' =>
      match st with
      | JKey key =>
          if bool_decide (c = dquote) then json_scan (JColon key) m s'
          else if (code c =? 92)%N || (code c <? 32)%N
               then Raise JSONDecodeError
               else json_scan (JKey (key ++ [c])) m s'
      | JValue key v =>
          if bool_decide (c = dquote)
          then json_scan JCommaOrEnd (<[key := v]> m) s'
          else if (code c =? 92)%N || (code c <? 32)%N
               then Raise JSONDecodeError
               else json_scan (JValue key (v ++ [c])) m s'
      | _ =>
          if json_space c then json_scan st m s'
          else match st with
               | JStart =>
                   if (code c =? 123)%N then json_scan JKeyOrEnd m s'
                   else Raise JSONDecodeError
               | JKeyOrEnd =>
                   if bool_decide (c = dquote) then json_scan (JKey []) m s'
                   else if (code c =? 125)%N then json_scan JDone m s'
                   else Raise JSONDecodeError
               | JColon key =>
                   if bool_decide (c = colon)
                   then json_scan (JBeforeValue key) m s'
                   else Raise JSONDecodeError
               | JBeforeValue key =>
                   if bool_decide (c = dquote)
                   then json_scan (JValue key []) m s'
                   else Raise JSONDecodeError
               | JCommaOrEnd =>
                   if (code c =? 44)%N then json_scan JBeforeKey m s'
                   else if (code c =? 125)%N then json_scan JDone m s'
                   else Raise JSONDecodeError
               | JBeforeKey =>
                   if bool_decide (c = dquote) then json_scan (JKey []) m s'
                   else Raise JSONDecodeError
               | _ => Raise JSONDecodeError
               end
      end
  end.

Definition flat_json_load (content : text) : result (gmap text text) :=
  json_scan JStart ∅ content.

Definition identity_markdown (markdown_content : text) (extensions : list text)
  : result text := Ok markdown_content.

Definition plain_Template (source : text) : result text := Ok source.

Definition plain_render (tpl : text) (context : gmap text value) (seed : N)
  : result text :=
  Ok (tpl
      ++ match context !! txt "css_content" with
         | Some (VStr css) => css
         | _ => []
         end
      ++ match context !! txt "html_content" with
         | Some (VStr html) => html
         | _ => []
         end).

Definition plain : libraries :=
  Libraries text identity_markdown flat_json_load plain_Template plain_render.

(** An engine for a template that asks for a random digit, as
    [{{ range(10) | random }}] does: the digit drawn from the random state
    is put between the text of the template and the body. *)
Definition dice_render (tpl : text) (context : gmap text value) (seed : N)
  : result text :=
  Ok (tpl ++ chr (48 + seed mod 10)
      :: match context !! txt "html_content" with
         | Some (VStr html) => html
         | _ => []
         end).

Definition dice : libraries :=
  Libraries text identity_markdown flat_json_load plain_Template dice_render.


Definition empty_world (fs : gmap text file) : world :=
  World fs (fun n => N.of_nat n) 0 [] [].

Definition quoted (s : text) : text := dquote :: s ++ [dquote].

(** A flat object of strings, as the text of a JSON file. *)
Definition json_member (kv : text * text) : text :=
  quoted kv.1 ++ txt ": " ++ quoted kv.2.

Definition json_object (members : list (text * text)) : text :=
  txt "{"
  ++ match members with
     | [] => []
     | kv :: kvs =>
         json_member kv ++ flat_map (fun x => txt ", " ++ json_member x) kvs
     end
  ++ txt "}".

(** [python markdown_to_html.py in.md out.html] *)
Definition two_arguments : command_line :=
  CommandLine (txt "in.md") (txt "out.html") None None None.

(** The keywords that [apply_template] passes by name. *)
Definition reserved : list text :=
  [txt "html_content"; txt "css_content"; txt "toc"].

(** ** Statements about the annotator *)

Fixpoint occursb (p s : text) : bool :=
  starts_with p s || match s with
                     | [] => false
                     | _ :: s' => occursb p s'
                     end.

(** [p] is a piece of [s]. *)
Definition occurs (p s : text) : Prop := exists a b, s = a ++ p ++ b.

(** The round trip between the table of contents and the page: the
    entry of the i-th matched heading has the title of that heading, and
    the heading stands in the returned page with the anchor of the entry
    as its identifier. *)
Definition anchors_in_place (html : text) : Prop :=
  forall i level t,
    findall html !! i = Some (level, t) ->
    exists e, (generate_toc html).1 !! i = Some e /\ title e = t
              /\ occurs (id_heading level (anchor e) t) (generate_toc html).2.

(** Somewhere in [s] stands a bare opening tag [<hN>], N from 1 to 6. *)
Fixpoint has_bare_open (s : text) : bool :=
  match s with
  | [] => false
  | a :: s' =>
      match s' with
      | b :: level :: d :: _ =>
          bool_decide (a = lt_sign) && bool_decide (b = h_lower)
          && is_level level && bool_decide (d = gt_sign)
      | _ => false
      end || has_bare_open s'
  end.

Definition lines (ls : list text) : text :=
  match ls with
  | [] => []
  | l :: ls' => l ++ flat_map (fun x => newline :: x) ls'
  end.

(** The value that the lines [ls] give to the key [k]: that of the last
    matching line whose key is [k]. *)
Definition last_value (k : text) (ls : list text) : option text :=
  last (omap (fun line =>
                match match_metadata line with
                | Some (key, value) =>
                    if decide (strip key = k) then Some (strip value) else None
                | None => None
                end) ls).

(** ** Pages made of text and headings *)

(** A page written as blocks, each a text followed by a bare heading,
    and a last text; [shown] gives the form of each heading. *)
Definition page (shown : ascii * text -> text)
    (blocks : list (text * (ascii * text))) (rest : text) : text :=
  flat_map (fun b => b.1 ++ shown b.2) blocks ++ rest.

Definition bare (m : ascii * text) : text := bare_heading m.1 m.2.

(** [g] ends with the start of an opening tag: [<], [<h] or [<hN]. *)
Definition ends_open (g : text) : bool :=
  match reverse g with
  | [] => false
  | a :: g1 =>
      bool_decide (a = lt_sign)
      || match g1 with
         | [] => false
         | b :: g2 =>
             bool_decide (b = lt_sign) && bool_decide (a = h_lower)
             || match g2 with
                | [] => false
                | c :: _ =>
                    bool_decide (c = lt_sign) && bool_decide (b = h_lower)
                    && is_level a
                end
         end
  end.

(** A text between headings: no bare opening tag [<hN>] in it and no
    start of one at its end. *)
Definition plain_text (g : text) : Prop :=
  has_bare_open g = false /\ ends_open g = false.

(** A title of one line without [<]. *)
Definition plain_title (m : ascii * text) : Prop :=
  is_level m.1 = true /\ (lt_sign ∉ m.2) /\ (newline ∉ m.2).

(** What the extractor records: a key of key code points, not empty,
    with a stripped value. *)
Definition recorded (k v : text) : Prop :=
  k <> [] /\ Forall (fun c => is_key_char c = true) k /\ strip v = v.

(** * Properties *)

(** ** Code points *)

Ltac by_cases_on c :=
  destruct c as [[] [] [] [] [] [] [] []]; vm_compute; try done; intuition congruence.

Lemma isspace_lower_char c : isspace (lower_char c) = isspace c.
Proof. by_cases_on c. Qed.

Lemma lower_char_lt c : lower_char c = lt_sign -> c = lt_sign.
Proof. by_cases_on c. Qed.

Lemma lower_char_h c : lower_char c = h_lower -> c = h_lower \/ c = h_upper.
Proof. by_cases_on c. Qed.

Lemma isspace_not_key c : isspace c = true -> is_key_char c = false.
Proof. by_cases_on c. Qed.

Lemma starts_with_spec p s : starts_with p s = true <-> exists r, s = p ++ r.
Proof.
  revert s; induction p as [|a p IH]; intros s; simpl.
  - split; eauto.
  - destruct s as [|b s]; [split; [done | intros [r Hr]; done]|].
    destruct (decide (a = b)) as [->|Hne].
    + rewrite IH. split; intros [r Hr]; exists r; simpl in *; by simplify_eq.
    + split; [done | intros [r Hr]; simplify_eq].
Qed.

Lemma starts_with_app p r : starts_with p (p ++ r) = true.
Proof. apply starts_with_spec; eauto. Qed.

(** ** Anchors *)

Lemma sub_ws_no_space b s : Forall (fun c => isspace c = false) (sub_ws b s).
Proof.
  revert b; induction s as [|c s IH]; intros b; simpl; [constructor|].
  destruct (isspace c) eqn:Hc.
  - destruct b; [apply IH | constructor; [done | apply IH]].
  - constructor; [done | apply IH].
Qed.

Lemma sub_ws_id b s : Forall (fun c => isspace c = false) s -> sub_ws b s = s.
Proof.
  intros H; revert b; induction H as [|c s Hc _ IH]; intros b; simpl; [done|].
  by rewrite Hc, IH.
Qed.

Lemma Forall_space_lower (P : bool) s :
  Forall (fun c => isspace c = P) s -> Forall (fun c => isspace c = P) (lower s).
Proof.
  unfold lower; intros H; apply Forall_fmap; eapply Forall_impl; [exact H|].
  intros c Hc; simpl. by rewrite isspace_lower_char.
Qed.

(** ** Replacement *)

Lemma replace_from_skip u old new s :
  replace_from (length u) old new (u ++ s) = replace_from 0 old new s.
Proof. induction u as [|c u IH]; simpl; [by destruct s | exact IH]. Qed.

Lemma replace_nil a p new : replace (a :: p) new [] = [].
Proof. done. Qed.

Lemma replace_match a p new s :
  replace (a :: p) new ((a :: p) ++ s) = new ++ replace (a :: p) new s.
Proof.
  unfold replace. change ((a :: p) ++ s) with (a :: (p ++ s)).
  cbn [replace_from]. change (a :: p ++ s) with ((a :: p) ++ s).
  rewrite starts_with_app. f_equal.
  replace (length (a :: p) - 1) with (length p) by (simpl; lia).
  apply replace_from_skip.
Qed.

Lemma replace_other a p new c s :
  starts_with (a :: p) (c :: s) = false ->
  replace (a :: p) new (c :: s) = c :: replace (a :: p) new s.
Proof. intros H. unfold replace. cbn [replace_from]. by rewrite H. Qed.

(** ** The scan for headings *)

Lemma findall_from_skip u s : findall_from (length u) (u ++ s) = findall s.
Proof. induction u as [|c u IH]; simpl; [by destruct s | exact IH]. Qed.

Lemma parse_from_skip u s : parse_from (length u) (u ++ s) = parse s.
Proof. induction u as [|c u IH]; simpl; [by destruct s | exact IH]. Qed.

Lemma annotate_from_skip u s : annotate_from (length u) (u ++ s) = annotate s.
Proof. induction u as [|c u IH]; simpl; [by destruct s | exact IH]. Qed.

Lemma starts_with_shorter p u v :
  starts_with p (u ++ v) = true -> length p <= length u ->
  starts_with p u = true.
Proof.
  revert u; induction p as [|a p IH]; intros u H Hlen; [done|].
  destruct u as [|b u]; simpl in *; [lia|].
  destruct (decide (a = b)); [|done]. apply IH; [done | lia].
Qed.

Lemma find_close_spec level s t :
  find_close level s = Some t ->
  (exists rest, s = t ++ close_tag level ++ rest)
  /\ Forall (fun c => isdot c = true) t
  /\ closes_first level t = true.
Proof.
  revert t; induction s as [|c s IH]; intros t; cbn [find_close].
  - destruct (starts_with (close_tag level) []) eqn:E; [|done].
    intros [= <-]. apply starts_with_spec in E as [r Hr]. done.
  - destruct (starts_with (close_tag level) (c :: s)) eqn:E.
    + intros [= <-]. apply starts_with_spec in E as [r Hr].
      split; [by exists r | by split].
    + destruct (isdot c) eqn:Hc; [|done].
      destruct (find_close level s) as [t'|] eqn:Ht; [|done].
      intros [= <-]. destruct (IH _ eq_refl) as ([r ->] & Hdot & Hfirst).
      split; [by exists r|]. split; [by constructor|].
      cbn [closes_first]. rewrite Hfirst, andb_true_r.
      apply negb_true_iff, not_true_is_false. intros Hs.
      apply starts_with_spec in Hs as [r' Hr'].
      enough (starts_with (close_tag level) (c :: t' ++ close_tag level ++ r)
              = true) by congruence.
      apply starts_with_spec. exists (r' ++ r).
      change (c :: t' ++ close_tag level ++ r)
        with ((c :: t') ++ close_tag level ++ r).
      by rewrite (app_assoc (c :: t')), Hr', <- app_assoc.
Qed.

Lemma find_close_total level t rest :
  Forall (fun c => isdot c = true) t ->
  is_Some (find_close level (t ++ close_tag level ++ rest)).
Proof.
  induction 1 as [|c t Hc _ IH].
  - simpl app. unfold find_close.
    destruct rest; change (starts_with (close_tag level) ?s)
      with (starts_with (close_tag level) s);
      cbn; repeat case_decide; try done; eauto.
  - change ((c :: t) ++ close_tag level ++ rest)
      with (c :: (t ++ close_tag level ++ rest)).
    cbn [find_close]. destruct (starts_with _ _); [eauto|].
    rewrite Hc. destruct IH as [t' ->]. simpl. eauto.
Qed.

Lemma match_heading_spec s level t :
  match_heading s = Some (level, t) ->
  heading_ok (level, t) /\ exists rest, s = bare_heading level t ++ rest.
Proof.
  unfold match_heading.
  destruct s as [|a [|b [|l [|d rest]]]]; try done.
  destruct (bool_decide (a = lt_sign)) eqn:Ha; [|done].
  destruct (bool_decide (b = h_lower)) eqn:Hb; [|done].
  destruct (is_level l) eqn:Hl; [|done].
  destruct (bool_decide (d = gt_sign)) eqn:Hd; [|done]. simpl.
  apply bool_decide_eq_true in Ha as ->, Hb as ->, Hd as ->.
  destruct (find_close l rest) as [t'|] eqn:Ht; [|done].
  intros [= -> ->].
  destruct (find_close_spec _ _ _ Ht) as ([r ->] & Hdot & Hfirst).
  split; [done|]. exists r. unfold bare_heading. by rewrite <- !app_assoc.
Qed.

Lemma match_heading_total level t rest :
  is_level level = true -> Forall (fun c => isdot c = true) t ->
  is_Some (match_heading (bare_heading level t ++ rest)).
Proof.
  intros Hl Hdot. unfold bare_heading. rewrite <- !app_assoc.
  cbn [app match_heading]. rewrite !bool_decide_eq_true_2, Hl by done.
  destruct (find_close_total level t rest Hdot) as [t' ->]. simpl. eauto.
Qed.

Lemma findall_match s level t rest :
  match_heading s = Some (level, t) -> s = bare_heading level t ++ rest ->
  findall s = (level, t) :: findall rest.
Proof.
  intros Hm ->. unfold findall at 1. remember (bare_heading level t) as u.
  destruct u as [|c u]; [by subst|]. cbn [app findall_from]. 
  change (c :: u ++ rest) with ((c :: u) ++ rest). rewrite Hm. f_equal.
  rewrite <- Hequ. replace (length (c :: u) - 1) with (length u) by (simpl; lia).
  apply findall_from_skip.
Qed.

Lemma parse_match s level t rest :
  match_heading s = Some (level, t) -> s = bare_heading level t ++ rest ->
  parse s = Heading level t :: parse rest.
Proof.
  intros Hm ->. unfold parse at 1. remember (bare_heading level t) as u.
  destruct u as [|c u]; [by subst|]. cbn [app parse_from].
  change (c :: u ++ rest) with ((c :: u) ++ rest). rewrite Hm. f_equal.
  rewrite <- Hequ. replace (length (c :: u) - 1) with (length u) by (simpl; lia).
  apply parse_from_skip.
Qed.

Lemma annotate_match s level t rest :
  match_heading s = Some (level, t) -> s = bare_heading level t ++ rest ->
  annotate s = annotated (level, t) ++ annotate rest.
Proof.
  intros Hm ->. unfold annotate at 1. remember (bare_heading level t) as u.
  destruct u as [|c u]; [by subst|]. cbn [app annotate_from].
  change (c :: u ++ rest) with ((c :: u) ++ rest). rewrite Hm. f_equal.
  rewrite <- Hequ. replace (length (c :: u) - 1) with (length u) by (simpl; lia).
  apply annotate_from_skip.
Qed.

Lemma findall_other c s :
  match_heading (c :: s) = None -> findall (c :: s) = findall s.
Proof. intros H. unfold findall. cbn [findall_from]. by rewrite H. Qed.

Lemma parse_other c s :
  match_heading (c :: s) = None -> parse (c :: s) = Chr c :: parse s.
Proof. intros H. unfold parse. cbn [parse_from]. by rewrite H. Qed.

Lemma annotate_other c s :
  match_heading (c :: s) = None -> annotate (c :: s) = c :: annotate s.
Proof. intros H. unfold annotate. cbn [annotate_from]. by rewrite H. Qed.

(** Induction along the scan: a text is empty, or starts with a code
    point where nothing matches, or starts with a match. *)
Lemma scan_ind (P : text -> Prop) :
  P [] ->
  (forall c s, match_heading (c :: s) = None -> P s -> P (c :: s)) ->
  (forall level t rest,
      match_heading (bare_heading level t ++ rest) = Some (level, t) ->
      heading_ok (level, t) -> P rest -> P (bare_heading level t ++ rest)) ->
  forall s, P s.
Proof.
  intros Hnil Hother Hmatch s.
  induction s as [s IH] using (induction_ltof1 _ (@length ascii)).
  unfold ltof in IH. destruct s as [|c s]; [done|].
  destruct (match_heading (c :: s)) as [[level t]|] eqn:Hm.
  - destruct (match_heading_spec _ _ _ Hm) as (Hok & rest & Hs).
    rewrite Hs in *. apply Hmatch; [done..|]. apply IH.
    rewrite length_app. unfold bare_heading. simpl. lia.
  - apply Hother; [done|]. apply IH. simpl. lia.
Qed.

(** ** Documents *)

Lemma render_cons done i d :
  render done (i :: d) = render_item done i ++ render done d.
Proof. done. Qed.

Lemma render_parse s : render (fun _ => false) (parse s) = s.
Proof.
  induction s as [|c s Hm IH|level t rest Hm _ IH] using scan_ind; [done|..].
  - rewrite parse_other, render_cons, IH; done.
  - rewrite (parse_match _ _ _ _ Hm eq_refl), render_cons, IH. done.
Qed.

Lemma headings_parse s : headings_of (parse s) = findall s.
Proof.
  induction s as [|c s Hm IH|level t rest Hm _ IH] using scan_ind; [done|..].
  - rewrite parse_other, findall_other by done. exact IH.
  - rewrite (parse_match _ _ _ _ Hm eq_refl), (findall_match _ _ _ _ Hm eq_refl).
    change (headings_of (Heading level t :: parse rest))
      with ((level, t) :: headings_of (parse rest)). by rewrite IH.
Qed.

Lemma gaps_parse s : gaps_ok (parse s).
Proof.
  induction s as [|c s Hm IH|level t rest Hm _ IH] using scan_ind; [done|..].
  - rewrite parse_other by done. simpl. by rewrite render_parse.
  - by rewrite (parse_match _ _ _ _ Hm eq_refl).
Qed.

Lemma findall_ok s : Forall heading_ok (findall s).
Proof.
  induction s as [|c s Hm IH|level t rest Hm Hok IH] using scan_ind.
  - constructor.
  - by rewrite findall_other.
  - rewrite (findall_match _ _ _ _ Hm eq_refl). by constructor.
Qed.

Lemma annotate_render s : annotate s = render (fun _ => true) (parse s).
Proof.
  induction s as [|c s Hm IH|level t rest Hm _ IH] using scan_ind; [done|..].
  - rewrite parse_other, annotate_other, render_cons, IH; done.
  - rewrite (parse_match _ _ _ _ Hm eq_refl), (annotate_match _ _ _ _ Hm eq_refl).
    by rewrite render_cons, IH.
Qed.

Lemma render_ext f g d :
  (forall m, m ∈ headings_of d -> f m = g m) -> render f d = render g d.
Proof.
  induction d as [|i d IH]; intros H; [done|].
  rewrite !render_cons. f_equal.
  - destruct i as [c|level t]; [done|]. simpl.
    rewrite (H (level, t)); [done|]. unfold headings_of. simpl. set_solver.
  - apply IH. intros m Hm. apply H. unfold headings_of in *.
    destruct i; simpl; set_solver.
Qed.

(** ** Where a heading can start *)

Lemma lt_then_app f a b :
  lt_then f a = false -> lt_then f b = false ->
  (last a = Some lt_sign -> from_option f false (head b) = false) ->
  lt_then f (a ++ b) = false.
Proof.
  induction a as [|x a IH]; intros Ha Hb Hlast; [done|].
  cbn [lt_then app] in *. apply orb_false_iff in Ha as [Hx Ha].
  apply orb_false_iff. split.
  - destruct a as [|y a]; [|exact Hx]. simpl app.
    destruct (bool_decide (x = lt_sign)) eqn:E; [|done].
    apply bool_decide_eq_true in E as ->. simpl. by apply Hlast.
  - apply IH; [done..|]. intros Hl. apply Hlast.
    destruct a; [done|]. by rewrite last_cons_cons.
Qed.

Lemma lt_then_mono (f g : ascii -> bool) s :
  (forall c, g c = true -> f c = true) ->
  lt_then f s = false -> lt_then g s = false.
Proof.
  intros Hfg. induction s as [|a s IH]; [done|]. cbn [lt_then].
  intros [H1 H2]%orb_false_iff. rewrite (IH H2), orb_false_r.
  destruct (bool_decide (a = lt_sign)); [|done]. simpl in *.
  destruct (head s) as [b|]; [|done]. simpl in *.
  destruct (g b) eqn:E; [|done]. by rewrite (Hfg _ E) in H1.
Qed.

Lemma calm_of_title t : opens_heading t = false -> calm t = true.
Proof.
  intros H. unfold calm. apply negb_true_iff. revert H. apply lt_then_mono.
  intros c Hc. unfold is_h. by rewrite Hc.
Qed.

Lemma calm_app a b :
  calm a = true -> calm b = true ->
  (last a = Some lt_sign -> head b <> Some h_lower) ->
  calm (a ++ b) = true.
Proof.
  unfold calm. rewrite !negb_true_iff. intros Ha Hb H.
  apply lt_then_app; [done..|]. intros Hl. specialize (H Hl).
  destruct (head b) as [c|]; [|done]. simpl.
  apply bool_decide_eq_false. congruence.
Qed.

Lemma calm_tail a s : calm (a :: s) = true -> calm s = true.
Proof.
  unfold calm. rewrite !negb_true_iff. cbn [lt_then].
  by intros [_ ?]%orb_false_iff.
Qed.

Lemma calm_lower t : opens_heading t = false -> calm (lower t) = true.
Proof.
  unfold calm, opens_heading. rewrite negb_true_iff.
  induction t as [|a t IH]; [done|]. cbn [lt_then lower map].
  intros [H1 H2]%orb_false_iff. fold (lower t). rewrite (IH H2), orb_false_r.
  destruct (bool_decide (lower_char a = lt_sign)) eqn:E; [|done].
  apply bool_decide_eq_true, lower_char_lt in E as ->.
  rewrite bool_decide_eq_true_2 in H1 by done. simpl in *.
  destruct t as [|b t]; [done|]. simpl in *.
  apply bool_decide_eq_false. intros Hb. apply lower_char_h in Hb.
  unfold is_h in H1. apply orb_false_iff in H1 as [?%bool_decide_eq_false ?%bool_decide_eq_false].
  tauto.
Qed.

Lemma head_sub_ws_false s c :
  head (sub_ws false s) = Some c ->
  c = hyphen \/ head s = Some c.
Proof.
  destruct s as [|a s]; [done|]. simpl.
  destruct (isspace a); simpl; intros [= ->]; eauto.
Qed.

Lemma calm_sub_ws b s : calm s = true -> calm (sub_ws b s) = true.
Proof.
  unfold calm. rewrite !negb_true_iff.
  revert b; induction s as [|a s IH]; intros b; [done|].
  cbn [lt_then sub_ws]. intros [H1 H2]%orb_false_iff.
  destruct (isspace a) eqn:Ha.
  - destruct b; [by apply IH|]. cbn [lt_then]. by rewrite (IH _ H2).
  - cbn [lt_then]. rewrite (IH _ H2), orb_false_r.
    destruct (bool_decide (a = lt_sign)); [|done]. simpl in *.
    destruct (head (sub_ws false s)) as [c|] eqn:Hc; [|done]. simpl.
    apply head_sub_ws_false in Hc as [->|Hc]; [done|].
    by rewrite Hc in H1.
Qed.

Lemma calm_anchor t : opens_heading t = false -> calm (make_anchor t) = true.
Proof. intros H. by apply calm_sub_ws, calm_lower. Qed.

Ltac chars := cbn; repeat case_bool_decide; simplify_eq; try done.

Lemma calm_close level : calm (close_tag level) = true.
Proof. unfold calm, close_tag. chars. Qed.

Lemma last_close level u : last (u ++ close_tag level) = Some gt_sign.
Proof. unfold close_tag. by rewrite !last_app. Qed.

Lemma calm_title_close level t :
  opens_heading t = false -> calm (t ++ close_tag level) = true.
Proof.
  intros H. apply calm_app; [by apply calm_of_title | apply calm_close | done].
Qed.

Lemma quiet_bare level t : opens_heading t = false -> quiet_tag (bare_heading level t).
Proof.
  intros H. exists ([level; gt_sign] ++ t ++ close_tag level).
  split; [done|]. split.
  - apply (calm_app [level; gt_sign]); [|by apply calm_title_close|done].
    unfold calm. chars.
  - change (h_lower :: [level; gt_sign] ++ t ++ close_tag level)
      with ((h_lower :: level :: gt_sign :: t) ++ close_tag level).
    apply last_close.
Qed.

Lemma quiet_annotated m : opens_heading m.2 = false -> quiet_tag (annotated m).
Proof.
  destruct m as [level t]. simpl. intros H. unfold annotated, id_heading. simpl.
  exists ([level] ++ txt " id=" ++ [dquote] ++ make_anchor t
          ++ [dquote; gt_sign] ++ t ++ close_tag level).
  split; [done|]. split.
  - apply (calm_app [level]); [unfold calm; chars| |done].
    apply (calm_app (txt " id=" ++ [dquote])); [unfold calm; chars| |done].
    apply calm_app; [by apply calm_anchor| |done].
    apply (calm_app [dquote; gt_sign]); [unfold calm; chars| |done].
    by apply calm_title_close.
  - rewrite !app_comm_cons, !app_assoc. apply last_close.
Qed.

(** ** One replacement over a document *)

Section Replace_heading.

Variables (level : ascii) (t new : text).
Hypothesis Hok : heading_ok (level, t).
Hypothesis Hclean : opens_heading t = false.

Let old := bare_heading level t.

Lemma old_shape : exists p, old = lt_sign :: h_lower :: p.
Proof. by eexists. Qed.

(** Nothing to replace inside a run without [<h]. *)
Lemma replace_calm u s :
  calm u = true -> last u <> Some lt_sign ->
  replace old new (u ++ s) = u ++ replace old new s.
Proof.
  induction u as [|a u IH]; intros Hcalm Hlast; [done|].
  change ((a :: u) ++ s) with (a :: (u ++ s)).
  unfold old, bare_heading. cbn [app]. rewrite replace_other.
  - f_equal. destruct u as [|b u]; [done|]. apply IH.
    + by apply calm_tail in Hcalm.
    + by rewrite last_cons_cons in Hlast.
  - cbn [starts_with]. destruct (decide (lt_sign = a)) as [<-|]; [|done].
    destruct u as [|b u]; [done|]. cbn [app].
    destruct (decide (h_lower = b)) as [<-|]; [|done].
    unfold calm in Hcalm. cbn in Hcalm. by rewrite !bool_decide_eq_true_2 in Hcalm.
Qed.

Lemma replace_quiet x s :
  quiet_tag x -> starts_with old (x ++ s) = false ->
  replace old new (x ++ s) = x ++ replace old new s.
Proof.
  intros (y & -> & Hcalm & Hlast) Hs.
  change ((lt_sign :: h_lower :: y) ++ s) with (lt_sign :: ((h_lower :: y) ++ s)).
  unfold old, bare_heading in *. cbn [app] in *. rewrite replace_other by done.
  f_equal. apply (replace_calm (h_lower :: y) s); [|by rewrite Hlast].
  unfold calm in *. cbn [lt_then]. rewrite bool_decide_eq_false_2 by done. done.
Qed.

End Replace_heading.

Lemma starts_with_render q f g d :
  calm q = true ->
  starts_with q (render f d) = true -> starts_with q (render g d) = true.
Proof.
  revert q; induction d as [|i d IH]; intros q Hq; [done|].
  rewrite !render_cons. destruct q as [|a q]; [done|].
  destruct i as [c|l t]; cbn [render_item app starts_with].
  - destruct (decide (a = c)); [|done]. apply IH. by apply calm_tail in Hq.
  - assert (forall (b : bool) s,
      exists y, (if b then annotated (l, t) else bare_heading l t) ++ s
                = lt_sign :: h_lower :: y) as Hshape
      by (intros [] s; by eexists).
    destruct (Hshape (f (l, t)) (render f d)) as [y1 ->].
    destruct (Hshape (g (l, t)) (render g d)) as [y2 ->].
    cbn [starts_with]. destruct (decide (a = lt_sign)) as [->|]; [|done].
    destruct q as [|b q]; [done|]. cbn [starts_with].
    destruct (decide (b = h_lower)) as [->|]; [|done].
    unfold calm in Hq. cbn in Hq. by rewrite !bool_decide_eq_true_2 in Hq.
Qed.

Lemma title_unique level t t' r r' :
  closes_first level t = true -> closes_first level t' = true ->
  t ++ close_tag level ++ r = t' ++ close_tag level ++ r' -> t = t'.
Proof.
  assert (forall u v w w', closes_first level (u :: v) = true ->
            close_tag level ++ w = (u :: v) ++ close_tag level ++ w' -> False)
    as Hno.
  { clear. intros u v w r' H E. cbn [closes_first] in H.
    apply andb_true_iff in H as [H _]. apply negb_true_iff in H.
    rewrite (starts_with_shorter (close_tag level)
               ((u :: v) ++ close_tag level) r') in H; [done| |].
    - rewrite <- app_assoc, <- E. apply starts_with_app.
    - rewrite length_app. simpl. lia. }
  revert t'. induction t as [|c t IH]; intros [|c' t'] Ht Ht' E.
  - done.
  - exfalso. by eapply Hno.
  - exfalso. symmetry in E. by eapply Hno.
  - simpl in E. injection E as -> E. f_equal. apply IH; [| |done].
    + cbn [closes_first] in Ht. by apply andb_true_iff in Ht as [_ ?].
    + cbn [closes_first] in Ht'. by apply andb_true_iff in Ht' as [_ ?].
Qed.

Lemma starts_with_annotated level t m s :
  starts_with (bare_heading level t) (annotated m ++ s) = false.
Proof.
  destruct m as [l' t']. unfold bare_heading, annotated, id_heading.
  cbn. repeat case_decide; try done.
Qed.

Lemma starts_with_bare level t l' t' s :
  closes_first level t = true -> closes_first l' t' = true ->
  (l', t') <> (level, t) ->
  starts_with (bare_heading level t) (bare_heading l' t' ++ s) = false.
Proof.
  intros Ht Ht' Hne. apply not_true_is_false. intros [r Hr]%starts_with_spec.
  unfold bare_heading in Hr. rewrite <- !app_assoc in Hr. cbn [app] in Hr.
  injection Hr as Hl Hr. subst l'. apply Hne. f_equal.
  by apply (title_unique level t' t s r).
Qed.

Lemma starts_with_cons a p c s :
  starts_with (a :: p) (c :: s) = true -> a = c /\ starts_with p s = true.
Proof. simpl. by destruct (decide (a = c)). Qed.

Lemma replace_bare level t new s :
  replace (bare_heading level t) new (bare_heading level t ++ s)
  = new ++ replace (bare_heading level t) new s.
Proof. apply replace_match. Qed.

(** The turn of the loop for the heading [(level, t)] rewrites this
    heading wherever it stands in the document and nothing else. *)
Lemma replace_render level t f d :
  heading_ok (level, t) -> opens_heading t = false ->
  gaps_ok d -> Forall heading_ok (headings_of d) ->
  Forall (fun m => opens_heading m.2 = false) (headings_of d) ->
  replace (bare_heading level t) (annotated (level, t)) (render f d)
  = render (fun m => f m || bool_decide (m = (level, t))) d.
Proof.
  intros (Hlevel & Hdot & Hfirst) Hclean. cbn [fst snd] in *.
  induction d as [|i d IH]; intros Hgaps Hoks Hcleans; [done|].
  rewrite !render_cons. destruct i as [c|l' t'].
  - destruct Hgaps as [Hgap Hgaps]. cbn [render_item app].
    unfold bare_heading at 1. cbn [app]. rewrite replace_other.
    { f_equal. by apply IH. }
    apply not_true_is_false. intros [<- Hs]%starts_with_cons.
    apply (starts_with_render _ _ (fun _ => false)) in Hs.
    + apply starts_with_spec in Hs as [r Hr].
      destruct (match_heading_total level t r Hlevel Hdot) as [x Hx].
      unfold bare_heading in Hx. cbn [app] in Hx.
      rewrite <- !app_assoc in Hx. cbn [app] in *.
      rewrite <- app_assoc in Hr. by rewrite Hr, Hx in Hgap.
    + destruct (quiet_bare level t Hclean) as (y & Hy & Hcalm & _).
      injection Hy as <-. unfold calm in *. cbn [lt_then].
      rewrite bool_decide_eq_false_2 by done. done.
  - change (headings_of (Heading l' t' :: d))
      with ((l', t') :: headings_of d) in *.
    apply Forall_cons in Hoks as [(_ & _ & Hfirst') Hoks].
    apply Forall_cons in Hcleans as [Hclean' Hcleans]. cbn [fst snd] in *.
    specialize (IH Hgaps Hoks Hcleans). cbn [render_item].
    destruct (decide ((l', t') = (level, t))) as [[= -> ->]|Hne].
    + rewrite bool_decide_eq_true_2, orb_true_r by done.
      destruct (f (level, t)).
      * rewrite replace_quiet, IH; [done| |apply starts_with_annotated].
        by apply quiet_annotated.
      * by rewrite replace_bare, IH.
    + rewrite bool_decide_eq_false_2, orb_false_r by done.
      destruct (f (l', t')).
      * rewrite replace_quiet, IH; [done| |apply starts_with_annotated].
        by apply quiet_annotated.
      * rewrite replace_quiet, IH; [done| |by apply starts_with_bare].
        by apply quiet_bare.
Qed.

(** ** The loop of [generate_toc] *)

Lemma toc_fold ms toc h :
  (fold_left toc_step ms (toc, h)).1 = toc ++ map toc_of ms.
Proof.
  revert toc h; induction ms as [|[level t] ms IH]; intros toc h.
  - by rewrite app_nil_r.
  - cbn [fold_left toc_step]. rewrite IH, <- app_assoc. done.
Qed.

Lemma generate_toc_entries html :
  (generate_toc html).1 = map toc_of (findall html).
Proof. apply toc_fold. Qed.

Lemma html_fold ms f toc d :
  gaps_ok d -> Forall heading_ok (headings_of d) ->
  Forall (fun m => opens_heading m.2 = false) (headings_of d) ->
  Forall heading_ok ms -> Forall (fun m => opens_heading m.2 = false) ms ->
  (fold_left toc_step ms (toc, render f d)).2
  = render (fun m => f m || bool_decide (m ∈ ms)) d.
Proof.
  intros Hgaps Hoks Hcleans Hms; revert f toc.
  induction Hms as [|[level t] ms Hok _ IH]; intros f toc Hclean.
  - cbn [fold_left snd]. apply render_ext. intros m _.
    rewrite bool_decide_eq_false_2, orb_false_r; [done | set_solver].
  - apply Forall_cons in Hclean as [Hc Hclean].
    cbn [fold_left toc_step]. fold (annotated (level, t)).
    rewrite replace_render, IH by done.
    apply render_ext. intros m _. rewrite <- orb_assoc. f_equal.
    destruct (decide (m = (level, t))) as [->|Hne].
    + rewrite (bool_decide_eq_true_2 ((level, t) = (level, t))) by done.
      symmetry. apply bool_decide_eq_true_2, list_elem_of_here.
    + rewrite (bool_decide_eq_false_2 (m = _)) by done. simpl.
      apply bool_decide_ext. rewrite elem_of_cons.
      split; [by right | by intros [?|?]].
Qed.

(** For titles that hold no [<h] and no [<H], the annotator returns the
    input with every matched heading rewritten where it stands. *)
Lemma generate_toc_annotate html :
  Forall (fun m => opens_heading m.2 = false) (findall html) ->
  generate_toc html = (map toc_of (findall html), annotate html).
Proof.
  intros Hclean. apply injective_projections; cbn [fst snd].
  - apply generate_toc_entries.
  - unfold generate_toc. rewrite <- (render_parse html) at 2.
    rewrite html_fold.
    + rewrite annotate_render. apply render_ext. intros m Hm.
      rewrite headings_parse in Hm. by rewrite bool_decide_eq_true_2.
    + apply gaps_parse.
    + rewrite headings_parse. apply findall_ok.
    + by rewrite headings_parse.
    + apply findall_ok.
    + done.
Qed.

(** ** The anchor of a title *)

Lemma sub_ws_app_other b a c s :
  isspace c = false ->
  sub_ws b (a ++ c :: s) = sub_ws b (a ++ [c]) ++ sub_ws false s.
Proof.
  intros Hc. revert b; induction a as [|x a IH]; intros b; simpl.
  - by rewrite Hc.
  - destruct (isspace x); [destruct b|]; by rewrite IH.
Qed.

Lemma sub_ws_run b w s :
  w <> [] -> Forall (fun c => isspace c = true) w ->
  head s = None \/ (exists c, head s = Some c /\ isspace c = false) ->
  sub_ws b (w ++ s) = (if b then [] else [hyphen]) ++ sub_ws false s.
Proof.
  intros Hne Hw Hs. revert b. induction Hw as [|x w Hx Hw IH]; [done|]. intros b.
  cbn [app sub_ws]. rewrite Hx. destruct w as [|y w].
  - simpl app. assert (sub_ws true s = sub_ws false s) as ->; [|by destruct b].
    destruct Hs as [Hs|(c & Hs & Hc)]; destruct s; simplify_eq/=; [done|].
    by rewrite Hc.
  - destruct b; rewrite IH by done; done.
Qed.

(** C5, in general: lower case, one hyphen for each run of whitespace,
    every other code point kept. *)
Lemma make_anchor_run a c w s :
  isspace c = false -> w <> [] -> Forall (fun x => isspace x = true) w ->
  head s = None \/ (exists d, head s = Some d /\ isspace d = false) ->
  make_anchor (a ++ c :: w ++ s)
  = make_anchor (a ++ [c]) ++ hyphen :: make_anchor s.
Proof.
  intros Hc Hne Hw Hs. unfold make_anchor, lower.
  rewrite !map_app, !map_cons, map_app. simpl map at 3.
  rewrite sub_ws_app_other by (by rewrite isspace_lower_char).
  f_equal. rewrite sub_ws_run; [done| | |].
  - by destruct w.
  - by apply (Forall_space_lower true).
  - destruct Hs as [Hs|(d & Hs & Hd)]; destruct s; simplify_eq/=; [by left|].
    right. eexists. split; [done|]. by rewrite isspace_lower_char.
Qed.

(** C5. For every heading that the annotator matches, the anchor is the
    title in lower case with each run of whitespace replaced by one hyphen
    and every other code point, punctuation included, kept: the entries of
    the table are the matched titles with these anchors, an anchor holds no
    whitespace, a title without whitespace is only put in lower case, and a
    run of whitespace between two other code points gives one hyphen.  For
    [<h1>Hello World</h1>] the table is [{Hello World, hello-world}] and the
    page is [<h1 id="hello-world">Hello World</h1>]. *)
Theorem C5_anchor_from_title :
  generate_toc (txt "<h1>Hello World</h1>")
  = ([TocEntry (txt "Hello World") (txt "hello-world")],
     txt "<h1 id=" ++ quoted (txt "hello-world") ++ txt ">Hello World</h1>")
  /\ (forall html,
        (generate_toc html).1
        = map (fun m => TocEntry m.2 (make_anchor m.2)) (findall html))
  /\ (forall t, make_anchor t = sub_ws false (lower t)
                /\ Forall (fun c => isspace c = false) (make_anchor t))
  /\ (forall t, Forall (fun c => isspace c = false) t ->
                make_anchor t = lower t)
  /\ (forall a c w s,
        isspace c = false -> w <> [] ->
        Forall (fun x => isspace x = true) w ->
        head s = None \/ (exists d, head s = Some d /\ isspace d = false) ->
        make_anchor (a ++ c :: w ++ s)
        = make_anchor (a ++ [c]) ++ hyphen :: make_anchor s)
  /\ make_anchor (txt "What's   New, in 2.0?") = txt "what's-new,-in-2.0?".
Proof.
  split; [by vm_compute|]. split; [apply generate_toc_entries|].
  split; [intros t; split; [done | apply sub_ws_no_space]|].
  split; [|split; [apply make_anchor_run | by vm_compute]].
  intros t Ht. unfold make_anchor. apply sub_ws_id.
  by apply (Forall_space_lower false).
Qed.

(** ** Metadata *)

Lemma fold_lookup (ls : list text) (m : gmap text text) (k : text) :
  fold_left metadata_step ls m !! k
  = from_option Some (m !! k) (last_value k ls).
Proof.
  unfold last_value. revert m; induction ls as [|l ls IH]; intros m; [done|].
  cbn [fold_left omap list_omap]. rewrite IH. unfold metadata_step.
  destruct (match_metadata l) as [[key value]|]; [|done].
  destruct (decide (strip key = k)) as [<-|Hne].
  - rewrite lookup_insert_eq.
    destruct (omap _ ls) as [|x xs] eqn:E; [done|].
    rewrite last_cons_cons.
    destruct (last (x :: xs)) eqn:El; [done|]. by apply last_None in El.
  - by rewrite lookup_insert_ne.
Qed.

Lemma extract_metadata_lookup (md k : text) :
  extract_metadata md !! k = last_value k (split_lines md).
Proof.
  unfold extract_metadata. rewrite fold_lookup, lookup_empty.
  by destruct (last_value k (split_lines md)).
Qed.

Lemma fold_no_match (ls : list text) (m : gmap text text) :
  Forall (fun l => match_metadata l = None) ls ->
  fold_left metadata_step ls m = m.
Proof.
  induction 1 as [|l ls Hl _ IH]; [done|].
  cbn [fold_left]. unfold metadata_step at 2. by rewrite Hl.
Qed.

(** C9. A Markdown text none of whose lines matches the metadata pattern
    gives the empty mapping. *)
Theorem C9_no_metadata_line_empty_mapping (markdown_content : text) :
  Forall (fun line => match_metadata line = None)
         (split_lines markdown_content) ->
  extract_metadata markdown_content = ∅.
Proof. apply fold_no_match. Qed.

Lemma C9_witness :
  extract_metadata
    (lines [txt "# A page"; []; txt "Some prose, no header line.";
            txt "key without colon"; txt ": value without key";
            txt "two words: not a key"; txt "key:"])
  = ∅.
Proof.
  apply C9_no_metadata_line_empty_mapping.
  vm_compute. repeat constructor.
Defined.

(** *** The pattern *)

Lemma span_spec f s a b :
  span f s = (a, b) ->
  s = a ++ b /\ Forall (fun c => f c = true) a
  /\ (forall c, head b = Some c -> f c = false).
Proof.
  revert a b; induction s as [|c s IH]; intros a b; simpl.
  - intros [= <- <-]. by repeat split.
  - destruct (f c) eqn:Hc.
    + destruct (span f s) as [a' b']. intros [= <- <-].
      destruct (IH _ _ eq_refl) as (-> & Ha & Hb).
      repeat split; [by constructor | done].
    + intros [= <- <-]. repeat split; [done|]. by intros ? [= <-].
Qed.

Lemma span_app f a b :
  Forall (fun c => f c = true) a ->
  (forall c, head b = Some c -> f c = false) ->
  span f (a ++ b) = (a, b).
Proof.
  intros Ha Hb. induction Ha as [|c a Hc _ IH]; simpl.
  - destruct b as [|c b]; [done|]. simpl. by rewrite (Hb c).
  - by rewrite Hc, IH.
Qed.

Lemma lstrip_spec s :
  exists ws, s = ws ++ lstrip s /\ Forall (fun c => isspace c = true) ws
             /\ (forall c, head (lstrip s) = Some c -> isspace c = false).
Proof.
  induction s as [|c s (ws & IH & Hws & Hhead)]; simpl.
  - exists []. by repeat split.
  - destruct (isspace c) eqn:Hc.
    + exists (c :: ws). repeat split; [simpl; congruence | by constructor | done].
    + exists []. repeat split; [done|]. by intros ? [= <-].
Qed.

Lemma lstrip_id s :
  (forall c, head s = Some c -> isspace c = false) -> lstrip s = s.
Proof. destruct s as [|c s]; [done|]. simpl. intros H. by rewrite (H c). Qed.

Lemma lstrip_lstrip s : lstrip (lstrip s) = lstrip s.
Proof. destruct (lstrip_spec s) as (_ & _ & _ & H). by apply lstrip_id. Qed.

Lemma lstrip_all s : Forall (fun c => isspace c = true) s -> lstrip s = [].
Proof. induction 1 as [|c s Hc _ IH]; [done|]. simpl. by rewrite Hc. Qed.

Lemma lstrip_nil s : lstrip s = [] -> Forall (fun c => isspace c = true) s.
Proof.
  induction s as [|c s IH]; [done|]. simpl.
  destruct (isspace c) eqn:Hc; [|done]. intros H.
  constructor; [done | by apply IH].
Qed.

(** Group 2 is taken from any rest that is not empty, and stripping it
    gives the stripped rest. *)
Lemma value_group_spec r :
  match value_group r with
  | Some v => r <> [] /\ v <> [] /\ strip v = strip r
              /\ exists ws, r = ws ++ v /\ Forall (fun c => isspace c = true) ws
  | None => r = []
  end.
Proof.
  unfold value_group. destruct (lstrip r) as [|c v] eqn:E.
  - destruct (last r) as [c|] eqn:El; [|by apply last_None].
    apply last_Some in El as [r' ->]. split; [by destruct r'|]. split; [done|].
    pose proof (lstrip_nil _ E) as Hall. split.
    + unfold strip. rewrite E. apply Forall_app in Hall as [_ Hc].
      by rewrite (lstrip_all [c]).
    + exists r'. split; [done|]. by apply Forall_app in Hall as [? _].
  - rewrite <- E. destruct (lstrip_spec r) as (ws & Hr & Hws & _).
    split; [by destruct r|]. split; [by rewrite E|].
    split; [unfold strip; by rewrite lstrip_lstrip | by exists ws].
Qed.

Lemma match_metadata_sound line key value :
  match_metadata line = Some (key, value) ->
  exists ws r,
    line = ws ++ key ++ colon :: r
    /\ Forall (fun c => isspace c = true) ws
    /\ key <> [] /\ Forall (fun c => is_key_char c = true) key
    /\ r <> [] /\ strip value = strip r.
Proof.
  unfold match_metadata.
  destruct (span isspace line) as [ws s1] eqn:E1.
  destruct (span is_key_char s1) as [k s2] eqn:E2.
  destruct k as [|k0 k]; [done|]. destruct s2 as [|c r]; [done|].
  case_bool_decide as Hc; [subst c|done].
  pose proof (value_group_spec r) as Hv.
  destruct (value_group r) as [v|]; [|done]. intros [= <- <-].
  destruct (span_spec _ _ _ _ E1) as (-> & Hws & _).
  destruct (span_spec _ _ _ _ E2) as (-> & Hk & _).
  destruct Hv as (Hr & _ & Hstrip & _). exists ws, r. by repeat split.
Qed.

Lemma match_metadata_complete ws key r :
  Forall (fun c => isspace c = true) ws ->
  key <> [] -> Forall (fun c => is_key_char c = true) key -> r <> [] ->
  exists value,
    match_metadata (ws ++ key ++ colon :: r) = Some (key, value)
    /\ strip value = strip r.
Proof.
  intros Hws Hne Hk Hr. unfold match_metadata.
  rewrite (span_app isspace ws).
  - rewrite (span_app is_key_char key); [|done|by intros ? [= <-]].
    destruct key as [|k0 key]; [done|].
    rewrite bool_decide_eq_true_2 by done.
    pose proof (value_group_spec r) as Hv.
    destruct (value_group r) as [v|]; [|done].
    exists v. split; [done|]. by destruct Hv as (_ & _ & ? & _).
  - done.
  - intros c Hc. destruct key as [|k0 key]; [done|]. simpl in Hc.
    injection Hc as ->. apply Forall_cons in Hk as [Hk _].
    destruct (isspace c) eqn:E; [|done]. by rewrite (isspace_not_key c) in Hk.
Qed.

Lemma strip_id s :
  (forall c, head s = Some c -> isspace c = false) ->
  (forall c, last s = Some c -> isspace c = false) ->
  strip s = s.
Proof.
  intros Hh Hl. unfold strip, rstrip. rewrite (lstrip_id s Hh), lstrip_id.
  - apply reverse_involutive.
  - intros c. rewrite head_reverse. apply Hl.
Qed.

Lemma strip_key key :
  Forall (fun c => is_key_char c = true) key -> strip key = key.
Proof.
  intros Hk. assert (forall c, c ∈ key -> isspace c = false) as H.
  { intros c Hc. rewrite Forall_forall in Hk. specialize (Hk c Hc).
    destruct (isspace c) eqn:E; [|done]. by rewrite (isspace_not_key c) in Hk. }
  apply strip_id; intros c Hc; apply H.
  - by apply head_Some_elem_of.
  - by apply last_Some_elem_of.
Qed.

Lemma split_lines_no_newline s : Forall (fun l => newline ∉ l) (split_lines s).
Proof.
  induction s as [|c s IH]; simpl.
  - constructor; [|done]. by intros ?%elem_of_nil.
  - destruct (decide (c = newline)).
    + constructor; [|done]. by intros ?%elem_of_nil.
    + destruct (split_lines s) as [|l ls].
      { constructor; [|done]. intros [?|?%elem_of_nil]%elem_of_cons; congruence. }
      apply Forall_cons in IH as [Hl Hls]. constructor; [|done].
      intros [?|?]%elem_of_cons; [congruence | done].
Qed.

Lemma last_lstrip s c :
  last (lstrip s) = Some c -> last s = Some c.
Proof.
  destruct (lstrip_spec s) as (ws & Hs & _). intros H. rewrite Hs, last_app.
  by rewrite H.
Qed.

(** Neither end of a stripped text is whitespace. *)
Lemma strip_ends s :
  (forall c, head (strip s) = Some c -> isspace c = false)
  /\ (forall c, last (strip s) = Some c -> isspace c = false).
Proof.
  unfold strip, rstrip.
  destruct (lstrip_spec s) as (_ & _ & _ & Hhead).
  destruct (lstrip_spec (reverse (lstrip s))) as (_ & _ & _ & Hlast).
  split; intros c.
  - rewrite head_reverse. intros Hc. apply last_lstrip in Hc.
    rewrite last_reverse in Hc. by apply Hhead.
  - rewrite last_reverse. apply Hlast.
Qed.

Lemma strip_strip s : strip (strip s) = strip s.
Proof. destruct (strip_ends s). by apply strip_id. Qed.

Lemma strip_space s : Forall (fun c => isspace c = true) s -> strip s = [].
Proof. intros H. unfold strip. by rewrite lstrip_all. Qed.

Lemma fold_recorded (ls : list text) (m : gmap text text) :
  map_Forall recorded m -> map_Forall recorded (fold_left metadata_step ls m).
Proof.
  revert m; induction ls as [|l ls IH]; intros m Hm; [done|].
  cbn [fold_left]. apply IH. unfold metadata_step.
  destruct (match_metadata l) as [[key value]|] eqn:E; [|done].
  destruct (match_metadata_sound _ _ _ E) as (ws & r & _ & _ & Hne & Hk & _).
  apply map_Forall_insert_2; [|done]. rewrite (strip_key key Hk).
  split; [done|]. split; [done|]. apply strip_strip.
Qed.

(** What is stripped from a text is whitespace at its two ends, all of
    it. *)
Lemma strip_spec s :
  exists ws1 ws2,
    s = ws1 ++ strip s ++ ws2
    /\ Forall (fun c => isspace c = true) ws1
    /\ Forall (fun c => isspace c = true) ws2
    /\ (forall c, head (strip s) = Some c -> isspace c = false)
    /\ (forall c, last (strip s) = Some c -> isspace c = false).
Proof.
  destruct (lstrip_spec s) as (ws1 & Hs & Hws1 & _).
  destruct (lstrip_spec (reverse (lstrip s))) as (ws2 & Hr & Hws2 & _).
  destruct (strip_ends s) as [Hh Hl].
  exists ws1, (reverse ws2). split; [|split; [done|split; [|done]]].
  - unfold strip, rstrip. rewrite <- reverse_app, <- Hr, reverse_involutive.
    exact Hs.
  - rewrite Forall_forall in Hws2 |- *. intros c Hc. apply Hws2.
    by apply elem_of_reverse.
Qed.

Lemma metadata_step_records (metadata : gmap text text) (ws key r : text) :
  Forall (fun c => isspace c = true) ws ->
  key <> [] -> Forall (fun c => is_key_char c = true) key -> r <> [] ->
  metadata_step metadata (ws ++ key ++ colon :: r)
  = <[key := strip r]> metadata.
Proof.
  intros Hws Hne Hk Hr. unfold metadata_step.
  destruct (match_metadata_complete ws key r Hws Hne Hk Hr) as (v & -> & Hv).
  by rewrite (strip_key key Hk), Hv.
Qed.

(** C4. Each line is matched against
    [^\s*([A-Za-z0-9\-_]+):\s*(.+)\s*$]: a line matches exactly when it is
    whitespace, a key of one or more key code points, a colon and a rest
    that is not empty, and it then records the key with the rest trimmed,
    which is the rest without the whitespace at its two ends; the value
    of a key in the mapping is that of the last matching line with this
    key, it has no whitespace at either end, and a line that does not
    match records nothing.  The four lines of the example give
    [Title -> Final], [Author -> J. Doe] and nothing else, also when
    whitespace is put around the keys and the values. *)
Theorem C4_metadata_last_occurrence_wins :
  extract_metadata
    (lines [txt "Title: My Page"; txt "Author: J. Doe";
            txt "Another Title: Ignored"; txt "Title: Final"])
  = {[ txt "Title" := txt "Final"; txt "Author" := txt "J. Doe" ]}
  /\ extract_metadata
       (lines [txt "Title:My Page   "; txt "  Author:    J. Doe "
                                       ++ [chr 9; chr 13];
               txt " Another Title: Ignored"; chr 9 :: txt "Title:   Final   "])
     = {[ txt "Title" := txt "Final"; txt "Author" := txt "J. Doe" ]}
  /\ (forall markdown_content k : text,
        extract_metadata markdown_content !! k
        = last_value k (split_lines markdown_content))
  /\ (forall markdown_content : text,
        Forall (fun l => newline ∉ l) (split_lines markdown_content))
  /\ (forall line key value,
        match_metadata line = Some (key, value) ->
        exists ws r,
          line = ws ++ key ++ colon :: r
          /\ Forall (fun c => isspace c = true) ws
          /\ key <> [] /\ Forall (fun c => is_key_char c = true) key
          /\ r <> [] /\ strip key = key /\ strip value = strip r)
  /\ (forall ws key r,
        Forall (fun c => isspace c = true) ws ->
        key <> [] -> Forall (fun c => is_key_char c = true) key -> r <> [] ->
        exists value,
          match_metadata (ws ++ key ++ colon :: r) = Some (key, value)
          /\ strip value = strip r)
  /\ (forall (metadata : gmap text text) line,
        match_metadata line = None -> metadata_step metadata line = metadata)
  /\ (forall (metadata : gmap text text) ws key r,
        Forall (fun c => isspace c = true) ws ->
        key <> [] -> Forall (fun c => is_key_char c = true) key -> r <> [] ->
        metadata_step metadata (ws ++ key ++ colon :: r)
        = <[key := strip r]> metadata)
  /\ (forall s,
        exists ws1 ws2,
          s = ws1 ++ strip s ++ ws2
          /\ Forall (fun c => isspace c = true) ws1
          /\ Forall (fun c => isspace c = true) ws2
          /\ (forall c, head (strip s) = Some c -> isspace c = false)
          /\ (forall c, last (strip s) = Some c -> isspace c = false))
  /\ (forall markdown_content k v,
        extract_metadata markdown_content !! k = Some v ->
        (forall c, head v = Some c -> isspace c = false)
        /\ (forall c, last v = Some c -> isspace c = false)).
Proof.
  split; [by vm_compute|]. split; [by vm_compute|].
  split; [apply extract_metadata_lookup|].
  split; [apply split_lines_no_newline|].
  split; [|split; [|split; [|split; [|split]]]].
  - intros line key value Hm.
    destruct (match_metadata_sound _ _ _ Hm) as (ws & r & ? & ? & ? & Hk & ? & ?).
    exists ws, r. repeat split; try done. by apply strip_key.
  - apply match_metadata_complete.
  - intros metadata line Hm. unfold metadata_step. by rewrite Hm.
  - apply metadata_step_records.
  - apply strip_spec.
  - intros markdown_content k v H.
    assert (recorded k v) as (_ & _ & Hv).
    { unfold extract_metadata in H.
      by apply (fold_recorded (split_lines markdown_content) ∅
                  (map_Forall_empty _) k v). }
    destruct (strip_ends v) as [Hh Hl]. by rewrite Hv in Hh, Hl.
Qed.

(** ** Running the pipeline *)

Lemma effect_ret {A} (a : A) w : effect (mret a) w (Ok a) None.
Proof. by exists w. Qed.

Lemma effect_lift {A} (r : result A) w : effect (lift r) w r None.
Proof. by exists w. Qed.

Lemma effect_raise {A} e w : effect (raise (A := A) e) w (Raise e) None.
Proof. by exists w. Qed.

Lemma effect_logging level msg w : effect (logging level msg) w (Ok tt) None.
Proof. by eexists. Qed.

(** A step that writes nothing, then the rest. *)
Lemma effect_bind {A B} (m : io A) (k : A -> io B) w a r wr :
  effect m w (Ok a) None ->
  (forall w', files w' = files w -> writes w' = writes w ->
              entropy w' = entropy w -> effect (k a) w' r wr) ->
  effect (m ≫= k) w r wr.
Proof.
  intros (w1 & Hm & Hf & Hw & He) Hk.
  destruct (Hk w1 Hf Hw He) as (w2 & Hk2 & Hf2 & Hw2 & He2).
  exists w2. unfold mbind, io_bind. rewrite Hm. simpl in *.
  by rewrite Hk2, Hf2, Hw2, He2, Hf, Hw, He.
Qed.

Lemma effect_bind_raise {A B} (m : io A) (k : A -> io B) w e :
  effect m w (Raise e) None -> effect (m ≫= k) w (Raise e) None.
Proof.
  intros (w1 & Hm & Hf & Hw & He). exists w1. unfold mbind, io_bind.
  by rewrite Hm.
Qed.

Lemma effect_read_file file_path w :
  effect (read_file file_path) w (content_of (files w) file_path) None.
Proof.
  unfold read_file, content_of, effect, mbind, io_bind, except_not_found,
    open_read, logging. simpl.
  destruct (files w !! file_path) as [[content|]|]; simpl; by eexists.
Qed.

Lemma effect_open_read file_path w :
  is_Some (files w !! file_path) ->
  effect (open_read file_path) w
    (match content_of (files w) file_path with
     | Ok (Some content) => Ok content
     | Ok None => Raise FileNotFoundError
     | Raise e => Raise e
     end) None.
Proof.
  unfold content_of, effect, open_read.
  destruct (files w !! file_path) as [[content|]|]; simpl; by eexists.
Qed.

Lemma effect_write_file file_path content w :
  effect (write_file file_path content) w (Ok tt) (Some (file_path, content)).
Proof. by eexists. Qed.

(** A step that writes, then steps that do not. *)
Lemma effect_bind_after {A B} (m : io A) (k : A -> io B) w a r wr :
  effect m w (Ok a) wr ->
  (forall w', files w' = write_to wr (files w) ->
              writes w' = option_list wr ++ writes w ->
              entropy w' = entropy w -> effect (k a) w' r None) ->
  effect (m ≫= k) w r wr.
Proof.
  intros (w1 & Hm & Hf & Hw & He) Hk.
  destruct (Hk w1 Hf Hw He) as (w2 & Hk2 & Hf2 & Hw2 & He2).
  exists w2. unfold mbind, io_bind. rewrite Hm. simpl in *.
  by rewrite Hk2, Hf2, Hw2, He2, Hf, Hw, He.
Qed.

Lemma effect_extract_metadata_io markdown_content w :
  effect (extract_metadata_io markdown_content) w
    (Ok (extract_metadata markdown_content)) None.
Proof.
  eapply effect_bind; [apply effect_logging|]. intros w1 _ _ _.
  eapply effect_bind; [apply effect_logging|]. intros w2 _ _ _.
  apply effect_ret.
Qed.

Lemma effect_generate_toc_io html_content w :
  effect (generate_toc_io html_content) w (Ok (generate_toc html_content)) None.
Proof.
  eapply effect_bind; [apply effect_logging|]. intros w1 _ _ _. apply effect_ret.
Qed.

Section Pipeline_runs.

Variable lib : libraries.

Lemma effect_load_config args w :
  effect (load_config lib args) w (config_of lib args (files w)) None.
Proof.
  unfold load_config, config_of.
  eapply effect_bind; [by eexists|]. intros w1 Hf1 Hw1 He1. simpl.
  pose proof (effect_open_read (args_config args) w1) as Hread.
  rewrite Hf1 in Hread. unfold content_of in *.
  destruct (files w !! args_config args) as [[content|]|] eqn:E.
  - rewrite bool_decide_eq_true_2 by eauto.
    eapply effect_bind; [by apply Hread|]. intros w2 Hf2 Hw2 He2.
    destruct (json_load lib content) as [config|e] eqn:Ej.
    + eapply effect_bind; [apply effect_lift|]. intros w3 Hf3 Hw3 He3.
      eapply effect_bind; [apply effect_logging|].
      intros w4 _ _ _. apply effect_ret.
    + apply effect_bind_raise. apply effect_lift.
  - rewrite bool_decide_eq_true_2 by eauto.
    apply effect_bind_raise. by apply Hread.
  - rewrite bool_decide_eq_false_2 by (by intros [? ?]).
    apply effect_ret.
Qed.

Lemma effect_apply_template html_content metadata toc template_path
    css_content w :
  effect (apply_template lib html_content metadata toc template_path css_content)
    w
    (template_outcome lib (files w) (entropy w) html_content metadata toc
       template_path css_content)
    None.
Proof.
  unfold apply_template, template_outcome.
  eapply effect_bind; [apply effect_logging|]. intros w1 Hf1 Hw1 He1.
  pose proof (effect_read_file template_path w1) as Hread.
  rewrite Hf1 in Hread.
  destruct (content_of (files w) template_path) as [[s|]|e].
  - eapply effect_bind; [exact Hread|]. intros w2 _ _ He2. cbv beta iota.
    destruct (jinja_Template lib s) as [tpl|e].
    + eapply effect_bind; [apply effect_lift|]. intros w3 _ _ He3.
      destruct (call_kwargs _ metadata) as [kwargs|e].
      * eapply effect_bind; [apply effect_lift|]. intros w4 _ _ He4.
        eapply effect_bind; [by exists w4|]. intros w5 _ _ _.
        rewrite He4, He3, He2, He1. apply effect_lift.
      * apply effect_bind_raise, effect_lift.
    + apply effect_bind_raise, effect_lift.
  - eapply effect_bind; [exact Hread|]. intros w2 _ _ _. cbv beta iota.
    apply effect_bind_raise, effect_raise.
  - apply effect_bind_raise, Hread.
Qed.

Lemma effect_finish args config html_content metadata toc css_content w :
  effect (finish lib args config html_content metadata toc css_content) w
    (finish_outcome lib args (files w) (entropy w) config html_content
       metadata toc css_content).1
    (finish_outcome lib args (files w) (entropy w) config html_content
       metadata toc css_content).2.
Proof.
  unfold finish, finish_outcome.
  pose proof (effect_apply_template html_content metadata toc
                (template_file args config) css_content w) as Ht.
  destruct (template_outcome lib _ _ _ _ _ _ _) as [final_html|e].
  - eapply effect_bind; [exact Ht|]. intros w1 _ _ _. cbn [fst snd].
    eapply effect_bind_after; [apply effect_write_file|]. intros w2 _ _ _.
    apply effect_logging.
  - by apply effect_bind_raise.
Qed.

Lemma effect_convert markdown_content w :
  effect (convert_markdown_to_html lib markdown_content) w
    (markdown_markdown lib markdown_content [txt "toc"]) None.
Proof.
  eapply effect_bind; [apply effect_logging|]. intros w1 _ _ _.
  apply effect_lift.
Qed.

(** [main] gives the result and the write of [outcome]. *)
Lemma effect_main cl w :
  effect (main lib cl) w (outcome lib cl (files w) (entropy w)).1
    (outcome lib cl (files w) (entropy w)).2.
Proof.
  unfold main, outcome. set (args := parse_args cl).
  pose proof (effect_load_config args w) as Hc.
  destruct (config_of lib args (files w)) as [config|e];
    [|by apply effect_bind_raise].
  eapply effect_bind; [exact Hc|]. intros w1 Hf1 Hw1 He1. rewrite <- Hf1, <- He1.
  pose proof (effect_read_file (args_input args) w1) as Hr.
  destruct (content_of (files w1) (args_input args))
    as [[markdown_content|]|e]; [| |by apply effect_bind_raise].
  2: { eapply effect_bind; [exact Hr|]. intros w2 _ _ _. apply effect_ret. }
  eapply effect_bind; [exact Hr|]. intros w2 Hf2 Hw2 He2. rewrite <- Hf2, <- He2.
  eapply effect_bind; [apply effect_extract_metadata_io|].
  intros w3 Hf3 Hw3 He3. rewrite <- Hf3, <- He3.
  pose proof (effect_convert markdown_content w3) as Hm.
  destruct (markdown_markdown lib markdown_content [txt "toc"])
    as [html_content|e]; [|by apply effect_bind_raise].
  eapply effect_bind; [exact Hm|]. intros w4 Hf4 Hw4 He4. rewrite <- Hf4, <- He4.
  eapply effect_bind; [apply effect_generate_toc_io|].
  intros w5 Hf5 Hw5 He5. rewrite <- Hf5, <- He5.
  destruct (generate_toc html_content) as [toc html_content'].
  destruct (css_file args config) as [[|c p]|]; try apply effect_finish.
  pose proof (effect_read_file (c :: p) w5) as Hcss.
  destruct (content_of (files w5) (c :: p)) as [[css_content|]|e];
    [| |by apply effect_bind_raise].
  - eapply effect_bind; [exact Hcss|]. intros w6 Hf6 Hw6 He6. rewrite <- Hf6, <- He6.
    apply effect_finish.
  - eapply effect_bind; [exact Hcss|]. intros w6 _ _ _. apply effect_ret.
Qed.

End Pipeline_runs.

(** ** Configuration *)

Lemma main_result lib cl w :
  main lib cl w
  = ((outcome lib cl (files w) (entropy w)).1,
     (main lib cl w).2)
  /\ files (main lib cl w).2 = write_to (outcome lib cl (files w) (entropy w)).2 (files w)
  /\ writes (main lib cl w).2
     = option_list (outcome lib cl (files w) (entropy w)).2 ++ writes w.
Proof.
  destruct (effect_main lib cl w) as (w' & Hm & Hf & Hw & _). by rewrite Hm.
Qed.

Lemma load_config_result lib args w :
  (load_config lib args w).1 = config_of lib args (files w).
Proof.
  destruct (effect_load_config lib args w) as (w' & Hm & _). by rewrite Hm.
Qed.

(** C1, as the code has it.  The option [--template] has the built-in
    path as its [argparse] default, so [args.template] is a string that is
    not empty whenever the flag is absent and [or] never reaches the
    configuration: without the flag the template path is the built-in one
    whatever the configuration file says.  With [{"template":
    "custom.html"}] and two arguments the run reads
    [templates/default_template.html] and not [custom.html].  The
    configuration is reached only by a flag given with an empty path, while
    for [css], whose default is [None], the configuration is the fallback. *)
Theorem C1_template_of_config_is_ignored :
  (forall i o css cfg config,
      template_file (parse_args (CommandLine i o css None cfg)) config
      = default_template)
  /\ template_file (parse_args two_arguments)
       {[ txt "template" := txt "custom.html" ]}
     <> txt "custom.html"
  /\ (let w := empty_world
                 {[ txt "in.md" := Readable (txt "<p>page</p>");
                    txt "config.json"
                      := Readable (json_object
                                     [(txt "template", txt "custom.html")]);
                    txt "custom.html" := Readable (txt "custom:");
                    txt "templates/default_template.html"
                      := Readable (txt "default:") ]} in
      load_config plain (parse_args two_arguments) w
      = (Ok {[ txt "template" := txt "custom.html" ]},
         (load_config plain (parse_args two_arguments) w).2)
      /\ writes (main plain two_arguments w).2
         = [(txt "out.html", txt "default:<p>page</p>")]
      /\ map snd (log (main plain two_arguments w).2)
         = [LoadedConfiguration (txt "config.json");
            ReadingFile (txt "in.md");
            ExtractingMetadata;
            MetadataExtracted ∅;
            ConvertingMarkdown;
            GeneratingToc;
            ApplyingTemplate;
            ReadingFile (txt "templates/default_template.html");
            WritingFile (txt "out.html");
            ConversionSuccessful])
  /\ (forall i o css a t cfg config,
        template_file (parse_args (CommandLine i o css (Some (a :: t)) cfg))
          config
        = a :: t)
  /\ (forall i o css cfg config,
        template_file (parse_args (CommandLine i o css (Some []) cfg)) config
        = default default_template (config !! txt "template"))
  /\ (forall i o t cfg config,
        css_file (parse_args (CommandLine i o None t cfg)) config
        = config !! txt "css").
Proof.
  split; [done|]. split; [by vm_compute|]. split; [by vm_compute|]. done.
Qed.

(** ** Reserved names *)

Lemma call_kwargs_reserved (html_content : text) (css_content : option text)
    (toc : list toc_entry) (metadata : gmap text text) (k : text) :
  k ∈ reserved -> is_Some (metadata !! k) ->
  call_kwargs [(txt "html_content", VStr html_content);
               (txt "css_content", opt_value css_content);
               (txt "toc", VToc toc)] metadata
  = Raise TypeError.
Proof.
  intros Hk Hm. unfold call_kwargs. cbn [existsb fst].
  unfold reserved in Hk. rewrite !elem_of_cons in Hk.
  destruct Hk as [->|[->|[->|?%elem_of_nil]]]; [| | |done];
    rewrite (bool_decide_eq_true_2 _ Hm);
    by rewrite ?orb_true_r.
Qed.

(** C8. When the metadata holds one of the keys [html_content],
    [css_content] and [toc], the call of the template renderer raises: the
    call that expands the mapping after the three keywords is a [TypeError]
    by itself, so [apply_template] returns no page, whatever the template
    is, and neither value is bound. *)
Theorem C8_reserved_metadata_key_raises (lib : libraries)
    (html_content : text) (metadata : gmap text text) (toc : list toc_entry)
    (template_path : text) (css_content : option text) (w : world) (k : text) :
  k ∈ reserved -> is_Some (metadata !! k) ->
  call_kwargs [(txt "html_content", VStr html_content);
               (txt "css_content", opt_value css_content);
               (txt "toc", VToc toc)] metadata
  = Raise TypeError
  /\ (exists e,
        (apply_template lib html_content metadata toc template_path
           css_content w).1 = Raise e)
  /\ (forall s tpl,
        files w !! template_path = Some (Readable s) ->
        jinja_Template lib s = Ok tpl ->
        (apply_template lib html_content metadata toc template_path
           css_content w).1 = Raise TypeError).
Proof.
  intros Hk Hm.
  pose proof (call_kwargs_reserved html_content css_content toc metadata k
                Hk Hm) as Hcall.
  split; [done|].
  destruct (effect_apply_template lib html_content metadata toc template_path
              css_content w) as (w' & -> & _).
  cbn [fst]. unfold template_outcome, content_of. rewrite Hcall. split.
  - destruct (files w !! template_path) as [[s|]|]; eauto.
    destruct (jinja_Template lib s); eauto.
  - intros s tpl -> ->. done.
Qed.

Lemma C8_witness :
  let metadata := extract_metadata (lines [txt "title: A page"; txt "toc: yes"]) in
  let w := empty_world
             {[ txt "in.md" := Readable (lines [txt "title: A page"; txt "toc: yes"]);
                txt "templates/default_template.html" := Readable (txt "page:") ]} in
  metadata = {[ txt "title" := txt "A page"; txt "toc" := txt "yes" ]}
  /\ (apply_template plain (txt "<p>x</p>") metadata []
        (txt "templates/default_template.html") None w).1 = Raise TypeError
  /\ main plain two_arguments w
     = (Raise TypeError, (main plain two_arguments w).2)
  /\ writes (main plain two_arguments w).2 = [].
Proof.
  intros metadata w. split; [by vm_compute|]. split.
  - destruct (C8_reserved_metadata_key_raises plain (txt "<p>x</p>") metadata []
                (txt "templates/default_template.html") None w (txt "toc"))
      as (_ & _ & H).
    + unfold reserved. rewrite !elem_of_cons. tauto.
    + vm_compute. eauto.
    + apply (H (txt "page:") (txt "page:")); by vm_compute.
  - split; by vm_compute.
Defined.

(** ** Missing files *)

Lemma outcome_written lib cl fs seed r file_path content :
  outcome lib cl fs seed = (r, Some (file_path, content)) ->
  r = Ok tt /\ file_path = args_output (parse_args cl)
  /\ exists config markdown_content html_content css_content,
       config_of lib (parse_args cl) fs = Ok config
       /\ fs !! args_input (parse_args cl) = Some (Readable markdown_content)
       /\ markdown_markdown lib markdown_content [txt "toc"] = Ok html_content
       /\ template_outcome lib fs seed (generate_toc html_content).2
            (extract_metadata markdown_content) (generate_toc html_content).1
            (template_file (parse_args cl) config) css_content
          = Ok content.
Proof.
  unfold outcome, content_of. set (args := parse_args cl).
  destruct (config_of lib args fs) as [config|e]; [|done].
  destruct (fs !! args_input args) as [[markdown_content|]|]; [|done..].
  destruct (markdown_markdown lib markdown_content [txt "toc"])
    as [html_content|e] eqn:Em; [|done].
  destruct (generate_toc html_content) as [toc html'] eqn:Et.
  assert (forall css_content,
    finish_outcome lib args fs seed config html'
      (extract_metadata markdown_content) toc css_content
    = (r, Some (file_path, content)) ->
    r = Ok tt /\ file_path = args_output args
    /\ exists config0 md0 html0 css0,
         Ok config = Ok config0
         /\ Some (Readable markdown_content) = Some (Readable md0)
         /\ markdown_markdown lib md0 [txt "toc"] = Ok html0
         /\ template_outcome lib fs seed (generate_toc html0).2
              (extract_metadata md0) (generate_toc html0).1
              (template_file args config0) css0 = Ok content) as Hfin.
  { intros css_content. unfold finish_outcome.
    destruct (template_outcome lib _ _ _ _ _ _ _) as [final|e] eqn:E; [|done].
    intros [= <- <- <-]. split; [done|]. split; [done|].
    exists config, markdown_content, html_content, css_content.
    by rewrite Et. }
  destruct (css_file args config) as [[|c p]|]; [apply Hfin| |apply Hfin].
  destruct (fs !! (c :: p)) as [[css|]|]; [|done..]. apply Hfin.
Qed.

Lemma outcome_input_missing lib cl fs seed config :
  config_of lib (parse_args cl) fs = Ok config ->
  fs !! args_input (parse_args cl) = None ->
  outcome lib cl fs seed = (Ok tt, None).
Proof. intros Hc Hi. unfold outcome, content_of. by rewrite Hc, Hi. Qed.

Lemma outcome_input_missing_write lib cl fs seed :
  fs !! args_input (parse_args cl) = None ->
  (outcome lib cl fs seed).2 = None.
Proof.
  intros Hi. unfold outcome, content_of. rewrite Hi.
  by destruct (config_of lib (parse_args cl) fs).
Qed.

Lemma outcome_css_missing lib cl fs seed config c p :
  config_of lib (parse_args cl) fs = Ok config ->
  css_file (parse_args cl) config = Some (c :: p) ->
  fs !! (c :: p) = None ->
  (outcome lib cl fs seed).2 = None
  /\ forall markdown_content html_content,
       fs !! args_input (parse_args cl) = Some (Readable markdown_content) ->
       markdown_markdown lib markdown_content [txt "toc"] = Ok html_content ->
       outcome lib cl fs seed = (Ok tt, None).
Proof.
  intros Hc Hcss Hp. unfold outcome, content_of. rewrite Hc. split.
  - destruct (fs !! args_input (parse_args cl)) as [[md|]|]; [|done..].
    destruct (markdown_markdown lib md [txt "toc"]); [|done].
    destruct (generate_toc a). by rewrite Hcss, Hp.
  - intros md html -> ->. destruct (generate_toc html). by rewrite Hcss, Hp.
Qed.

(** C7, as stated, fails: the configuration is loaded before the input is
    read, so with a configuration file that does not parse the run raises
    although the input file does not exist; and with an input that exists
    but cannot be read the run raises although the requested style sheet
    does not exist. *)
Lemma C7_broken_configuration_counterexample :
  (let w := empty_world {[ txt "config.json" := Readable (txt "{") ]} in
   files w !! args_input (parse_args two_arguments) = None
   /\ (main plain two_arguments w).1 = Raise JSONDecodeError)
  /\ (let cl := CommandLine (txt "in.md") (txt "out.html")
                  (Some (txt "style.css")) None None in
      let w := empty_world {[ txt "in.md" := Unreadable ]} in
      css_file (parse_args cl) ∅ = Some (txt "style.css")
      /\ files w !! txt "style.css" = None
      /\ (main plain cl w).1 = Raise OSError).
Proof. split; by vm_compute. Qed.

(** C7, amended.  When the configuration is resolved without an error and
    the input file does not exist, the run returns without raising and
    writes nothing; so it does when the input is read and rendered without
    an error, a style sheet is requested and its file does not exist.  In
    every run in which the input file, or the requested style sheet, does
    not exist, nothing is written, also when the run raises.  A run writes
    nothing at all or returns after one write of the output file, made
    after the configuration, the input, the rendering and the template all
    succeeded. *)
Theorem C7_missing_file_returns_without_write (lib : libraries)
    (cl : command_line) (w : world) :
  let args := parse_args cl in
  let after := (main lib cl w).2 in
  (forall config,
      (load_config lib args w).1 = Ok config ->
      files w !! args_input args = None ->
      main lib cl w = (Ok tt, after)
      /\ writes after = writes w /\ files after = files w)
  /\ (forall config markdown_content html_content c p,
        (load_config lib args w).1 = Ok config ->
        files w !! args_input args = Some (Readable markdown_content) ->
        markdown_markdown lib markdown_content [txt "toc"] = Ok html_content ->
        css_file args config = Some (c :: p) ->
        files w !! (c :: p) = None ->
        main lib cl w = (Ok tt, after)
        /\ writes after = writes w /\ files after = files w)
  /\ (files w !! args_input args = None ->
      writes after = writes w /\ files after = files w)
  /\ (forall config c p,
        (load_config lib args w).1 = Ok config ->
        css_file args config = Some (c :: p) ->
        files w !! (c :: p) = None ->
        writes after = writes w /\ files after = files w)
  /\ (writes after = writes w /\ files after = files w
      \/ exists config markdown_content html_content css_content final_html,
           main lib cl w = (Ok tt, after)
           /\ (load_config lib args w).1 = Ok config
           /\ files w !! args_input args = Some (Readable markdown_content)
           /\ markdown_markdown lib markdown_content [txt "toc"]
              = Ok html_content
           /\ template_outcome lib (files w) (entropy w)
                (generate_toc html_content).2
                (extract_metadata markdown_content)
                (generate_toc html_content).1
                (template_file args config) css_content
              = Ok final_html
           /\ writes after = (args_output args, final_html) :: writes w).
Proof.
  intros args after.
  destruct (main_result lib cl w) as (Hm & Hf & Hw). fold after in Hm, Hf, Hw.
  repeat split.
  - rewrite Hm. f_equal. rewrite load_config_result in H.
    by rewrite (outcome_input_missing lib cl (files w) (entropy w) config).
  - rewrite Hw, (outcome_input_missing_write lib cl (files w) (entropy w)); done.
  - rewrite Hf, (outcome_input_missing_write lib cl (files w) (entropy w)); done.
  - rewrite load_config_result in H.
    destruct (outcome_css_missing lib cl (files w) (entropy w) config c p) as [_ Ho];
      [done..|].
    by rewrite Hm, (Ho markdown_content html_content).
  - rewrite load_config_result in H.
    destruct (outcome_css_missing lib cl (files w) (entropy w) config c p) as [Ho _];
      [done..|]. by rewrite Hw, Ho.
  - rewrite load_config_result in H.
    destruct (outcome_css_missing lib cl (files w) (entropy w) config c p) as [Ho _];
      [done..|]. by rewrite Hf, Ho.
  - rewrite Hw, (outcome_input_missing_write lib cl (files w) (entropy w)); done.
  - rewrite Hf, (outcome_input_missing_write lib cl (files w) (entropy w)); done.
  - rewrite load_config_result in H.
    destruct (outcome_css_missing lib cl (files w) (entropy w) config c p) as [Ho _];
      [done..|]. by rewrite Hw, Ho.
  - rewrite load_config_result in H.
    destruct (outcome_css_missing lib cl (files w) (entropy w) config c p) as [Ho _];
      [done..|]. by rewrite Hf, Ho.
  - destruct (outcome lib cl (files w) (entropy w)) as [r [[file_path content]|]] eqn:Eo.
    + right.
      destruct (outcome_written _ _ _ _ _ _ _ Eo)
        as (-> & -> & config & md & html & css & Hc & Hi & Hmd & Ht).
      exists config, md, html, css, content.
      rewrite load_config_result. by repeat split.
    + left. by rewrite Hf, Hw.
Qed.

Lemma C7_witness :
  (let w := empty_world ∅ in
   main plain two_arguments w = (Ok tt, (main plain two_arguments w).2)
   /\ writes (main plain two_arguments w).2 = []
   /\ files (main plain two_arguments w).2 = ∅)
  /\ (let cl := CommandLine (txt "in.md") (txt "out.html")
                  (Some (txt "style.css")) None None in
      let w := empty_world
                 {[ txt "in.md" := Readable (txt "<h1>Page</h1>");
                    txt "templates/default_template.html"
                      := Readable (txt "page:") ]} in
      main plain cl w = (Ok tt, (main plain cl w).2)
      /\ writes (main plain cl w).2 = []
      /\ files (main plain cl w).2 = files w).
Proof.
  split.
  - intros w.
    destruct (C7_missing_file_returns_without_write plain two_arguments w)
      as (H & _).
    apply (H ∅); by vm_compute.
  - intros cl w.
    destruct (C7_missing_file_returns_without_write plain cl w)
      as (_ & H & _).
    apply (H ∅ (txt "<h1>Page</h1>") (txt "<h1>Page</h1>")
             "s"%char (txt "tyle.css")); by vm_compute.
Defined.

(** ** Determinism *)




(** C10, as stated, fails: the template is rendered by an engine that
    lets a template draw random values, from a generator that is seeded
    anew in every process.  With a template that asks for a random digit,
    two runs on the same files write different pages. *)
Lemma C10_random_template_counterexample :
  let fs : gmap text file :=
    {[ txt "in.md" := Readable (txt "<p>x</p>");
       txt "templates/default_template.html" := Readable (txt "page:") ]} in
  let w1 := World fs (fun n => N.of_nat n) 3 [] [] in
  let w2 := World fs (fun n => N.of_nat n) 4 [] [] in
  files w1 = files w2
  /\ writes (main dice two_arguments w1).2
     = [(txt "out.html", txt "page:3<p>x</p>")]
  /\ writes (main dice two_arguments w2).2
     = [(txt "out.html", txt "page:4<p>x</p>")]
  /\ files (main dice two_arguments w1).2 !! txt "out.html"
     <> files (main dice two_arguments w2).2 !! txt "out.html".
Proof. repeat split; by vm_compute. Qed.





(** ** The round trip *)

Lemma occursb_unfold p s :
  occursb p s
  = starts_with p s || match s with [] => false | _ :: s' => occursb p s' end.
Proof. by destruct s. Qed.

Lemma occurs_spec p s : occurs p s <-> occursb p s = true.
Proof.
  split.
  - intros (a & b & ->). induction a as [|c a IH].
    + by rewrite occursb_unfold, app_nil_l, starts_with_app.
    + rewrite occursb_unfold. cbn [app]. by rewrite IH, orb_true_r.
  - induction s as [|c s IH]; simpl.
    + rewrite orb_false_r. intros [r Hr]%starts_with_spec.
      by exists [], r.
    + intros [[r Hr]%starts_with_spec|H]%orb_true_iff.
      * by exists [], r.
      * destruct (IH H) as (a & b & ->). by exists (c :: a), b.
Qed.

Lemma occurs_app_l p a s : occurs p s -> occurs p (a ++ s).
Proof. intros (x & y & ->). exists (a ++ x), y. by rewrite <- app_assoc. Qed.

Lemma occurs_annotate m html :
  m ∈ findall html -> occurs (annotated m) (annotate html).
Proof.
  induction html as [|c s Hm IH|level t rest Hm _ IH] using scan_ind.
  - by intros ?%elem_of_nil.
  - rewrite findall_other, annotate_other by done.
    intros H. by apply (occurs_app_l _ [c]), IH.
  - rewrite (findall_match _ _ _ _ Hm eq_refl),
      (annotate_match _ _ _ _ Hm eq_refl).
    intros [->|H]%elem_of_cons.
    + by exists [], (annotate rest).
    + by apply occurs_app_l, IH.
Qed.

Lemma anchors_in_place_annotate html :
  Forall (fun m => opens_heading m.2 = false) (findall html) ->
  anchors_in_place html.
Proof.
  intros Hclean i level t Hi. rewrite (generate_toc_annotate html Hclean).
  exists (toc_of (level, t)). cbn [fst snd].
  split; [by rewrite list_lookup_fmap, Hi|]. split; [done|].
  apply (occurs_annotate (level, t)). by eapply list_elem_of_lookup_2.
Qed.

(** C2, as stated, fails for a heading inside the title of another.
    The three heading tags of [<h1><h2>X</h2></h1><h2>x</h2>] are pairwise
    distinct and so are the two that the scan matches.  The anchor of the
    first match is its title in lower case, [<h2>x</h2>]; put in the
    identifier it is the text of the second match, and the replacement
    for the second match rewrites it there: the anchor of the first entry
    is the identifier of no tag of the returned page. *)
Lemma C2_nested_heading_counterexample :
  let html := txt "<h1><h2>X</h2></h1><h2>x</h2>" in
  findall html = [("1"%char, txt "<h2>X</h2>"); ("2"%char, txt "x")]
  /\ NoDup (findall html) /\ length (findall html) <= 6
  /\ NoDup [txt "<h1><h2>X</h2></h1>"; txt "<h2>X</h2>"; txt "<h2>x</h2>"]
  /\ ~ occurs (txt "<h2>x</h2>") (txt "<h1><h2>X</h2></h1>")
  /\ (generate_toc html).1
     = [TocEntry (txt "<h2>X</h2>") (txt "<h2>x</h2>");
        TocEntry (txt "x") (txt "x")]
  /\ (generate_toc html).2
     = txt "<h1 id="
       ++ quoted (txt "<h2 id=" ++ quoted (txt "x") ++ txt ">x</h2>")
       ++ txt "><h2>X</h2></h1><h2 id=" ++ quoted (txt "x") ++ txt ">x</h2>"
  /\ ~ occurs (txt "id=" ++ quoted (txt "<h2>x</h2>")) (generate_toc html).2
  /\ ~ anchors_in_place html.
Proof.
  intros html. split; [by vm_compute|].
  split; [apply (bool_decide_unpack _); by vm_compute|].
  split; [vm_compute; lia|].
  split; [apply (bool_decide_unpack _); by vm_compute|].
  split; [rewrite occurs_spec; by vm_compute|].
  split; [by vm_compute|]. split; [by vm_compute|].
  split; [rewrite occurs_spec; by vm_compute|].
  intros H. destruct (H 0 "1"%char (txt "<h2>X</h2>") eq_refl)
    as (e & He & _ & Ho).
  vm_compute in He. injection He as <-.
  apply occurs_spec in Ho. by vm_compute in Ho.
Qed.

(** C2, amended.  For every HTML input with 0 to 6 matched headings,
    pairwise distinct, in which no matched title holds [<h] or [<H], the
    entry of each matched heading has its title, the heading stands in
    the returned page with the anchor of the entry as its identifier, and
    the returned page is the input with each matched heading rewritten
    where it stands: the table and the page do not diverge. *)
Theorem C2_anchors_are_identifiers (html : text) :
  Forall (fun m => opens_heading m.2 = false) (findall html) ->
  NoDup (findall html) -> length (findall html) <= 6 ->
  anchors_in_place html
  /\ generate_toc html = (map toc_of (findall html), annotate html).
Proof.
  intros Hclean _ _.
  split; [by apply anchors_in_place_annotate | by apply generate_toc_annotate].
Qed.

Lemma C2_witness :
  let html := txt "<h1>Intro</h1><p>a</p><h2>Getting  Started</h2><h2>Intro</h2>" in
  anchors_in_place html
  /\ generate_toc html
     = ([TocEntry (txt "Intro") (txt "intro");
         TocEntry (txt "Getting  Started") (txt "getting-started");
         TocEntry (txt "Intro") (txt "intro")],
        txt "<h1 id=" ++ quoted (txt "intro") ++ txt ">Intro</h1><p>a</p><h2 id="
        ++ quoted (txt "getting-started")
        ++ txt ">Getting  Started</h2><h2 id=" ++ quoted (txt "intro")
        ++ txt ">Intro</h2>").
Proof.
  intros html.
  destruct (C2_anchors_are_identifiers html) as [H1 H2].
  - apply (bool_decide_unpack _). by vm_compute.
  - apply (bool_decide_unpack _). by vm_compute.
  - vm_compute. lia.
  - split; [exact H1|]. rewrite H2. by vm_compute.
Defined.

(** ** Duplicate headings *)


(** C3, as stated, fails where it says that one replacement rewrites
    both occurrences on every input.  In
    [<h2>x</h2><h1><h2>x</h2></h1><h1><h2>x</h2></h1>] the second and the
    third match are the same heading, of level 1 with the title
    [<h2>x</h2>]; the replacement for the first match rewrites their
    titles before their turn comes, so that the replacement for them finds
    nothing: both get the same anchor in the table and neither gets an
    identifier. *)
Lemma C3_rewritten_title_counterexample :
  let html := txt "<h2>x</h2><h1><h2>x</h2></h1><h1><h2>x</h2></h1>" in
  let inner := txt "<h2 id=" ++ quoted (txt "x") ++ txt ">x</h2>" in
  findall html !! 1 = Some ("1"%char, txt "<h2>x</h2>")
  /\ findall html !! 2 = Some ("1"%char, txt "<h2>x</h2>")
  /\ (generate_toc html).1
     = [TocEntry (txt "x") (txt "x");
        TocEntry (txt "<h2>x</h2>") (txt "<h2>x</h2>");
        TocEntry (txt "<h2>x</h2>") (txt "<h2>x</h2>")]
  /\ (generate_toc html).2
     = inner ++ txt "<h1>" ++ inner ++ txt "</h1><h1>" ++ inner ++ txt "</h1>"
  /\ ~ occurs (txt "<h1 id=") (generate_toc html).2.
Proof.
  intros html inner. repeat split; try (by vm_compute).
  rewrite occurs_spec. by vm_compute.
Qed.



(** ** Tags with attributes *)

Lemma match_heading_attribute level c rest :
  c <> gt_sign ->
  match_heading (lt_sign :: h_lower :: level :: c :: rest) = None.
Proof.
  intros Hc. unfold match_heading.
  by rewrite (bool_decide_eq_false_2 (c = gt_sign)), andb_false_r.
Qed.

Lemma has_bare_open_tail a s :
  has_bare_open (a :: s) = false -> has_bare_open s = false.
Proof. cbn [has_bare_open]. by intros [_ ?]%orb_false_iff. Qed.

Lemma has_bare_open_suffix a b :
  has_bare_open (a ++ b) = false -> has_bare_open b = false.
Proof.
  induction a as [|c a IH]; [done|]. intros H%has_bare_open_tail. by apply IH.
Qed.

(** No opening tag [<hN>] starts in a text that holds none and ends
    with [>], whatever follows it. *)
Lemma no_open_at u post level rest :
  has_bare_open u = false -> last u = Some gt_sign ->
  is_level level = true ->
  u ++ post <> lt_sign :: h_lower :: level :: gt_sign :: rest.
Proof.
  intros Hu Hlast Hlevel E.
  destruct u as [|a [|b [|c [|d u]]]]; simplify_eq/=.
  by rewrite Hlevel in Hu.
Qed.

Lemma starts_with_bare_open level t s :
  starts_with (bare_heading level t) s = true ->
  exists rest, s = lt_sign :: h_lower :: level :: gt_sign :: rest.
Proof.
  intros [r ->]%starts_with_spec. unfold bare_heading.
  rewrite <- app_assoc. by eexists.
Qed.

Lemma match_heading_open s level t :
  match_heading s = Some (level, t) -> has_bare_open s = true.
Proof.
  intros [Hok [r ->]]%match_heading_spec. destruct Hok as [Hl _].
  unfold bare_heading. rewrite <- app_assoc. cbn [app has_bare_open fst] in *.
  by rewrite !bool_decide_eq_true_2, Hl by done.
Qed.

Lemma findall_no_open html : has_bare_open html = false -> findall html = [].
Proof.
  induction html as [|c s IH]; [done|]. intros H.
  rewrite findall_other.
  - apply IH. by apply has_bare_open_tail in H.
  - destruct (match_heading (c :: s)) as [[level t]|] eqn:E; [|done].
    apply match_heading_open in E. congruence.
Qed.

Section Keep.

Variables (level : ascii) (a t tag : text).
Hypothesis Hlevel : is_level level = true.
Hypothesis Hhead : head tag = Some lt_sign.
Hypothesis Hlast : last tag = Some gt_sign.
Hypothesis Hopen : has_bare_open tag = false.

Let old := bare_heading level t.
Let new := id_heading level a t.

Lemma replace_closed u s :
  has_bare_open u = false -> u = [] \/ last u = Some gt_sign ->
  replace old new (u ++ s) = u ++ replace old new s.
Proof.
  induction u as [|c u IH]; intros Hu Hl; [done|].
  destruct Hl as [|Hl]; [done|].
  change ((c :: u) ++ s) with (c :: (u ++ s)).
  unfold old, bare_heading. cbn [app]. rewrite replace_other.
  - f_equal. apply IH; [by apply has_bare_open_tail in Hu|].
    destruct u; [by left | right; by rewrite last_cons_cons in Hl].
  - apply not_true_is_false. intros H.
    apply (starts_with_bare_open level t) in H as [r Hr].
    by apply (no_open_at (c :: u) s level r).
Qed.

(** The new heading ends as the old one does, from any [<] after the
    first. *)
Lemma id_heading_split x k :
  x <> [] -> head k = Some lt_sign -> old = x ++ k ->
  exists x', new = x' ++ k.
Proof.
  unfold old, new, bare_heading, id_heading.
  intros Hx Hk E. destruct k as [|k0 k]; simplify_eq/=.
  destruct x as [|x0 [|x1 [|x2 [|x3 x4]]]]; simplify_eq/=.
  exists (lt_sign :: h_lower :: x2 :: txt " id=" ++ [dquote] ++ a
          ++ [dquote; gt_sign] ++ x4).
  rewrite H0. cbn [app txt list_ascii_of_string].
  by rewrite <- !app_assoc.
Qed.

Lemma replace_keeps s : occurs tag s -> occurs tag (replace old new s).
Proof.
  intros (x & y & ->). remember (length x) as n eqn:Hn.
  revert x Hn. induction n as [n IH] using lt_wf_ind. intros x ->.
  destruct x as [|c x].
  { rewrite app_nil_l, replace_closed by eauto. by exists [], (replace old new y). }
  destruct (starts_with old ((c :: x) ++ tag ++ y)) eqn:Es.
  2: { change ((c :: x) ++ tag ++ y) with (c :: (x ++ tag ++ y)) in *.
       unfold old, bare_heading in *. cbn [app] in *.
       rewrite replace_other by done.
       apply (occurs_app_l _ [c]). apply (IH (length x)); [simpl; lia | done]. }
  apply starts_with_spec in Es as [s' Es]. rewrite Es.
  unfold old at 1 2. rewrite replace_bare. fold old.
  symmetry in Es. apply app_eq_inv in Es as [(k & Ho & Hty)|(k & Hx & Hs')].
  - apply app_eq_inv in Hty as [(k2 & Ht & Hs')|(k2 & Hk & Hy)].
    + (* the occurrence of [old] ends in the tag *)
      subst s'. destruct k as [|k0 k].
      { rewrite app_nil_l in Ht. subst k2.
        rewrite replace_closed by eauto. apply occurs_app_l.
        by exists [], (replace old new y). }
      destruct (id_heading_split (c :: x) (k0 :: k)) as [x' Hnew];
        [done| |done|].
      { rewrite Ht in Hhead. done. }
      rewrite replace_closed.
      * exists x', (replace old new y). rewrite Hnew at 1. rewrite Ht.
        by rewrite <- !app_assoc.
      * rewrite Ht in Hopen. by apply has_bare_open_suffix in Hopen.
      * destruct k2 as [|k3 k2]; [by left|]. right.
        rewrite Ht, last_app in Hlast.
        destruct (last (k3 :: k2)) eqn:E; [done|]. by apply last_None in E.
    + (* it covers the tag *)
      destruct (id_heading_split (c :: x) (tag ++ k2)) as [x' Hnew];
        [done| |by rewrite <- Hk|].
      { destruct tag; [done|]. done. }
      exists x', (k2 ++ replace old new s'). rewrite Hnew at 1.
      by rewrite <- !app_assoc.
  - (* it ends before the tag *)
    subst s'. apply occurs_app_l. apply (IH (length k)); [|done].
    rewrite Hx, length_app. unfold old, bare_heading. simpl. lia.
Qed.

End Keep.

Lemma fold_keeps (tag : text) ms toc s :
  head tag = Some lt_sign -> last tag = Some gt_sign ->
  has_bare_open tag = false ->
  Forall (fun m : ascii * text => is_level m.1 = true) ms ->
  occurs tag s -> occurs tag (fold_left toc_step ms (toc, s)).2.
Proof.
  intros Hhead Hlast Hopen Hms. revert toc s.
  induction Hms as [|[level t] ms Hl _ IH]; intros toc s Hs; [done|].
  cbn [fold_left toc_step]. apply IH. by apply replace_keeps.
Qed.

Lemma generate_toc_keeps (tag html : text) :
  head tag = Some lt_sign -> last tag = Some gt_sign ->
  has_bare_open tag = false ->
  occurs tag html -> occurs tag (generate_toc html).2.
Proof.
  intros Hhead Hlast Hopen. apply fold_keeps; [done..|].
  eapply Forall_impl; [apply findall_ok|]. by intros m [? _].
Qed.

(** C6, as stated, fails for a tag that holds a bare heading itself, here
    in the value of an attribute: the scan matches the inner heading, the
    table gets an entry and the tag with the attribute is rewritten. *)
Lemma C6_attribute_value_counterexample :
  let html := txt "<h1 class=" ++ quoted (txt "<h2>a</h2>") ++ txt ">T</h1>" in
  (generate_toc html).1 = [TocEntry (txt "a") (txt "a")]
  /\ (generate_toc html).2
     = txt "<h1 class="
       ++ quoted (txt "<h2 id=" ++ quoted (txt "a") ++ txt ">a</h2>")
       ++ txt ">T</h1>"
  /\ ~ occurs html (generate_toc html).2.
Proof.
  intros html. split; [by vm_compute|]. split; [by vm_compute|].
  rewrite occurs_spec. by vm_compute.
Qed.

(** C6, amended.  The scan matches bare opening tags only: nothing
    matches at an opening tag [<hN] that goes on with anything but [>].
    A tag that holds no bare opening tag [<hN>] itself, in its attributes
    or in its text, has no code point at which a match starts, so that it
    gives no entry, and it is in the returned page as it is in the input;
    an input with no bare opening tag at all gives the empty table and is
    returned unchanged.  The Markdown renderer is called with the
    extension list [toc]; when its result holds no bare opening tag, the
    table built from it is empty. *)
Theorem C6_only_bare_headings_match :
  (forall level c rest,
      c <> gt_sign ->
      match_heading (lt_sign :: h_lower :: level :: c :: rest) = None)
  /\ (forall tag a b post : text,
        last tag = Some gt_sign -> has_bare_open tag = false ->
        tag = a ++ b -> b <> [] -> match_heading (b ++ post) = None)
  /\ (forall tag html : text,
        head tag = Some lt_sign -> last tag = Some gt_sign ->
        has_bare_open tag = false ->
        occurs tag html -> occurs tag (generate_toc html).2)
  /\ (forall html, has_bare_open html = false -> generate_toc html = ([], html))
  /\ (let html := txt "<h1 id=" ++ quoted (txt "x") ++ txt ">Title</h1>" in
      generate_toc html = ([], html))
  /\ (forall lib markdown_content w,
        (convert_markdown_to_html lib markdown_content w).1
        = markdown_markdown lib markdown_content [txt "toc"])
  /\ (forall lib markdown_content html_content w,
        markdown_markdown lib markdown_content [txt "toc"] = Ok html_content ->
        has_bare_open html_content = false ->
        (html_content' ← convert_markdown_to_html lib markdown_content;
         generate_toc_io html_content') w
        = (Ok ([], html_content),
           ((html_content' ← convert_markdown_to_html lib markdown_content;
             generate_toc_io html_content') w).2)).
Proof.
  split; [apply match_heading_attribute|]. split; [|split; [|split; [|split]]].
  - intros tag a b post Hlast Hopen -> Hb.
    destruct (match_heading (b ++ post)) as [[level t]|] eqn:E; [|done].
    destruct (match_heading_spec _ _ _ E) as ([Hl _] & r & Hr).
    unfold bare_heading in Hr.
    exfalso. apply (no_open_at b post level (t ++ close_tag level ++ r)).
    + by apply has_bare_open_suffix in Hopen.
    + rewrite last_app in Hlast. destruct (last b) eqn:El; [done|].
      by apply last_None in El.
    + done.
    + rewrite Hr. cbn [app]. by rewrite <- app_assoc.
  - apply generate_toc_keeps.
  - intros html H. unfold generate_toc. by rewrite findall_no_open.
  - by vm_compute.
  - split.
    + intros lib md w. by destruct (effect_convert lib md w) as (w' & -> & _).
    + intros lib md html w Hmd Hopen. unfold mbind, io_bind.
      destruct (effect_convert lib md w) as (w' & -> & _). rewrite Hmd.
      destruct (effect_generate_toc_io html w') as (w'' & -> & _).
      unfold generate_toc. by rewrite findall_no_open.
Qed.

Lemma C6_witness :
  let tag := txt "<h2 class=" ++ quoted (txt "x") ++ txt ">Kept <em>as is</em></h2>" in
  let html := txt "<h1>One</h1><p>a</p>" ++ tag ++ txt "<h1>Two</h1>" in
  occurs tag (generate_toc html).2
  /\ map title (generate_toc html).1 = [txt "One"; txt "Two"]
  /\ generate_toc tag = ([], tag).
Proof.
  intros tag html.
  destruct C6_only_bare_headings_match as (_ & _ & Hkeep & Hnone & _).
  split; [|split].
  - apply Hkeep; [by vm_compute..|].
    by exists (txt "<h1>One</h1><p>a</p>"), (txt "<h1>Two</h1>").
  - by vm_compute.
  - apply Hnone. by vm_compute.
Defined.

(** * Further properties of the code *)

(** ** Anchors *)

Lemma lower_char_idem c : lower_char (lower_char c) = lower_char c.
Proof. by_cases_on c. Qed.

Lemma lower_idem s : lower (lower s) = lower s.
Proof.
  unfold lower. rewrite <- list_fmap_compose. apply list_fmap_ext.
  intros _ c _. apply lower_char_idem.
Qed.

Lemma lower_sub_ws b s :
  map lower_char (sub_ws b s) = sub_ws b (map lower_char s).
Proof.
  revert b; induction s as [|c s IH]; intros b; [done|].
  cbn [map sub_ws]. rewrite isspace_lower_char.
  destruct (isspace c); [destruct b|]; cbn [map]; by rewrite IH.
Qed.

Lemma make_anchor_idem t : make_anchor (make_anchor t) = make_anchor t.
Proof.
  unfold make_anchor, lower. rewrite lower_sub_ws.
  fold (lower t). fold (lower (lower t)). rewrite lower_idem.
  apply sub_ws_id, sub_ws_no_space.
Qed.

(** X1. The anchor of a title does not depend on the case of its
    letters nor on what a run of whitespace is made of, so that distinct
    titles can have one anchor; whitespace at the start or the end of a
    title is not stripped but gives a hyphen; and the anchor of an anchor
    is the anchor itself. *)
Theorem X1_anchor_forgets_case_and_spacing :
  (forall t, make_anchor (lower t) = make_anchor t)
  /\ (forall a c w1 w2 s,
        isspace c = false ->
        w1 <> [] -> Forall (fun x => isspace x = true) w1 ->
        w2 <> [] -> Forall (fun x => isspace x = true) w2 ->
        head s = None \/ (exists d, head s = Some d /\ isspace d = false) ->
        make_anchor (a ++ c :: w1 ++ s) = make_anchor (a ++ c :: w2 ++ s))
  /\ (forall w s,
        w <> [] -> Forall (fun x => isspace x = true) w ->
        head s = None \/ (exists d, head s = Some d /\ isspace d = false) ->
        make_anchor (w ++ s) = hyphen :: make_anchor s)
  /\ (forall t, make_anchor (make_anchor t) = make_anchor t).
Proof.
  split; [|split; [|split]].
  - intros t. unfold make_anchor. by rewrite lower_idem.
  - intros a c w1 w2 s Hc H1 Hw1 H2 Hw2 Hs. by rewrite !make_anchor_run.
  - intros w s Hne Hw Hs. unfold make_anchor, lower. rewrite map_app.
    rewrite sub_ws_run; [done| | |].
    + by destruct w.
    + by apply (Forall_space_lower true).
    + destruct Hs as [Hs|(d & Hs & Hd)]; destruct s; simplify_eq/=; [by left|].
      right. eexists. split; [done|]. by rewrite isspace_lower_char.
  - apply make_anchor_idem.
Qed.

Lemma X1_witness :
  make_anchor (txt "Getting   STARTED") = make_anchor (txt "Getting started")
  /\ make_anchor (txt "  Notes ") = txt "-notes-".
Proof.
  destruct X1_anchor_forgets_case_and_spacing as (Hcase & Hrun & Hlead & _).
  split.
  - rewrite <- (Hcase (txt "Getting   STARTED")),
      <- (Hcase (txt "Getting started")).
    apply (Hrun (txt "gettin") "g"%char (txt "   ") (txt " ") (txt "started"));
      try done; try (by repeat constructor). all: right; by eexists.
  - change (txt "  Notes ") with (txt "  " ++ txt "Notes ").
    rewrite (Hlead (txt "  ") (txt "Notes ")); [by vm_compute|done| |].
    + by repeat constructor.
    + right. by eexists.
Defined.

(** ** Lines *)

Lemma split_lines_cons s : exists l ls, split_lines s = l :: ls.
Proof.
  induction s as [|c s (l & ls & IH)]; simpl; [by eexists _, _|].
  destruct (decide (c = newline)); [by eexists _, _|]. rewrite IH. by eexists _, _.
Qed.

Lemma lines_split_lines s : lines (split_lines s) = s.
Proof.
  induction s as [|c s IH]; [done|]. simpl.
  destruct (split_lines_cons s) as (l & ls & E). rewrite E in *.
  destruct (decide (c = newline)) as [->|]; simpl in *; by rewrite IH.
Qed.

Lemma split_lines_app a b :
  split_lines (a ++ newline :: b) = split_lines a ++ split_lines b.
Proof.
  induction a as [|c a IH]; simpl.
  - done.
  - destruct (decide (c = newline)); rewrite IH; [done|].
    destruct (split_lines_cons a) as (l & ls & ->). done.
Qed.

Lemma split_lines_line l : newline ∉ l -> split_lines l = [l].
Proof.
  induction l as [|c l IH]; [done|]. intros H. simpl.
  rewrite decide_False by (intros ->; apply H; left).
  rewrite IH; [done|]. intros ?. apply H. by right.
Qed.

Lemma split_lines_lines l ls :
  Forall (fun x => newline ∉ x) (l :: ls) -> split_lines (lines (l :: ls)) = l :: ls.
Proof.
  revert l; induction ls as [|l' ls IH]; intros l [Hl Hls]%Forall_cons.
  - unfold lines. simpl. rewrite app_nil_r. by apply split_lines_line.
  - change (lines (l :: l' :: ls)) with (l ++ newline :: lines (l' :: ls)).
    by rewrite split_lines_app, split_lines_line, IH.
Qed.

(** X2. [split('\n')] and joining with line feeds are inverse to each
    other: the lines of a text are never none, they hold no line feed,
    joined again they give the text, and lines without line feeds are
    found again after joining; the lines of two texts put one after the
    other with a line feed between are the lines of the first and then
    those of the second. *)
Theorem X2_split_and_join :
  (forall s, split_lines s <> [] /\ lines (split_lines s) = s
             /\ Forall (fun l => newline ∉ l) (split_lines s)
             /\ length (split_lines s)
                = S (length (filter (fun c => c = newline) s)))
  /\ (forall l ls,
        Forall (fun x => newline ∉ x) (l :: ls) ->
        split_lines (lines (l :: ls)) = l :: ls)
  /\ (forall a b,
        split_lines (a ++ newline :: b) = split_lines a ++ split_lines b).
Proof.
  split; [|split; [apply split_lines_lines | apply split_lines_app]].
  intros s. split; [|split; [apply lines_split_lines|split]].
  - by destruct (split_lines_cons s) as (l & ls & ->).
  - apply split_lines_no_newline.
  - induction s as [|c s IH]; [done|]. simpl.
    destruct (split_lines_cons s) as (l & ls & E). rewrite E in *.
    rewrite filter_cons. destruct (decide (c = newline)); simpl in *; by rewrite <- IH.
Qed.

(** ** What the extractor records *)

Lemma last_value_line (k v : text) (ls : list text) :
  last_value k ls = Some v ->
  exists line key value,
    line ∈ ls /\ match_metadata line = Some (key, value)
    /\ strip key = k /\ strip value = v.
Proof.
  unfold last_value. intros H. apply last_Some_elem_of in H.
  apply list_elem_of_omap in H as (line & Hin & Hl).
  destruct (match_metadata line) as [[key value]|] eqn:Em; [|done].
  destruct (decide (strip key = k)) as [Hk|]; [|done]. injection Hl as Hv.
  exists line, key, value. by repeat split.
Qed.

(** X3. Every entry of the extracted mapping comes from a line of the
    text that matches the pattern; its key is not empty and is made of
    letters, digits, hyphens and underscores only, and its value has no
    whitespace at either end. *)
Theorem X3_extracted_entries_are_well_formed (markdown_content k v : text) :
  extract_metadata markdown_content !! k = Some v ->
  k <> [] /\ Forall (fun c => is_key_char c = true) k
  /\ strip v = v
  /\ (forall c, head v = Some c -> isspace c = false)
  /\ (forall c, last v = Some c -> isspace c = false)
  /\ exists line value,
       line ∈ split_lines markdown_content
       /\ match_metadata line = Some (k, value) /\ strip value = v.
Proof.
  intros H.
  assert (recorded k v) as (Hne & Hk & Hv).
  { unfold extract_metadata in H.
    by apply (fold_recorded (split_lines markdown_content) ∅
                (map_Forall_empty _) k v). }
  split; [done|]. split; [done|]. split; [done|].
  destruct (strip_ends v) as [Hh Hl]. rewrite Hv in Hh, Hl.
  split; [done|]. split; [done|].
  rewrite extract_metadata_lookup in H.
  destruct (last_value_line _ _ _ H) as (line & key & value & Hin & Hm & <- & <-).
  exists line, value. split; [done|]. split; [|done].
  destruct (match_metadata_sound _ _ _ Hm) as (_ & _ & _ & _ & _ & Hkey & _).
  by rewrite (strip_key key Hkey).
Qed.

Lemma X3_witness :
  recorded (txt "a-b_c") (txt "v  w")
  /\ extract_metadata (lines [txt "  a-b_c:   v  w  "; txt "prose"])
       !! txt "a-b_c" = Some (txt "v  w").
Proof.
  assert (extract_metadata (lines [txt "  a-b_c:   v  w  "; txt "prose"])
            !! txt "a-b_c" = Some (txt "v  w")) as H by (by vm_compute).
  split; [|done].
  destruct (X3_extracted_entries_are_well_formed _ _ _ H) as (? & ? & ? & _).
  by repeat split.
Defined.

Lemma match_metadata_after_space ws s :
  Forall (fun c => isspace c = true) ws ->
  (forall c, head s = Some c -> isspace c = false) ->
  match_metadata (ws ++ s)
  = let '(key, s2) := span is_key_char s in
    match key, s2 with
    | _ :: _, c :: r =>
        if bool_decide (c = colon)
        then option_map (pair key) (value_group r)
        else None
    | _, _ => None
    end.
Proof. intros Hws Hs. unfold match_metadata. by rewrite (span_app isspace ws). Qed.

Lemma key_then (key : text) (c : ascii) :
  key <> [] -> Forall (fun x => is_key_char x = true) key ->
  forall x, head (key ++ [c]) = Some x -> isspace x = false.
Proof.
  intros Hne Hk x. destruct key as [|k0 key]; [done|]. simpl. intros [= <-].
  apply Forall_cons in Hk as [Hk _].
  destruct (isspace k0) eqn:E; [|done]. by rewrite (isspace_not_key k0) in Hk.
Qed.

(** X4. Which lines record nothing and which record an empty value.
    A line that, after its leading whitespace, starts with a code point
    that is no key code point (as a Markdown heading does), a key that is
    followed by anything but a colon, and a key with nothing after its
    colon record nothing.  A key whose colon is followed by whitespace
    only is recorded with the empty value. *)
Theorem X4_lines_without_value (metadata : gmap text text) (ws key : text) :
  Forall (fun c => isspace c = true) ws ->
  key <> [] -> Forall (fun c => is_key_char c = true) key ->
  (forall c rest,
      isspace c = false -> is_key_char c = false ->
      metadata_step metadata (ws ++ c :: rest) = metadata)
  /\ metadata_step metadata (ws ++ key) = metadata
  /\ (forall c rest,
        is_key_char c = false -> c <> colon ->
        metadata_step metadata (ws ++ key ++ c :: rest) = metadata)
  /\ metadata_step metadata (ws ++ key ++ [colon]) = metadata
  /\ (forall w,
        w <> [] -> Forall (fun c => isspace c = true) w ->
        metadata_step metadata (ws ++ key ++ colon :: w)
        = <[key := []]> metadata).
Proof.
  intros Hws Hne Hk. unfold metadata_step. split; [|split; [|split; [|split]]].
  - intros c rest Hc Hkc. rewrite match_metadata_after_space; [|done|].
    + simpl. by rewrite Hkc.
    + by intros ? [= <-].
  - rewrite match_metadata_after_space; [|done|].
    + rewrite <- (app_nil_r key) at 1.
      rewrite (span_app is_key_char key []); [|done..]. by destruct key.
    + intros x Hx. apply (key_then key colon Hne Hk x).
      by destruct key.
  - intros c rest Hkc Hc. rewrite match_metadata_after_space; [|done|].
    + rewrite (span_app is_key_char key); [|done|by intros ? [= <-]].
      destruct key; [done|]. by rewrite bool_decide_eq_false_2.
    + intros x Hx. apply (key_then key c Hne Hk x). by destruct key.
  - rewrite match_metadata_after_space; [|done|].
    + rewrite (span_app is_key_char key); [|done|by intros ? [= <-]].
      by destruct key.
    + intros x Hx. apply (key_then key colon Hne Hk x). by destruct key.
  - intros w Hw Hsp.
    destruct (match_metadata_complete ws key w Hws Hne Hk Hw) as (v & -> & Hv).
    by rewrite (strip_key key Hk), Hv, (strip_space w Hsp).
Qed.

Lemma X4_witness :
  extract_metadata
    (lines [txt "# Title: a heading"; txt "draft"; txt "draft version: 2";
            txt "draft:"; txt "  status: " ++ [chr 9; " "%char]])
  = <[ txt "status" := [] ]> ∅.
Proof.
  destruct (X4_lines_without_value ∅ (txt "  ") (txt "status"))
    as (_ & _ & _ & _ & H); [by repeat constructor|done|by repeat constructor|].
  rewrite <- (H [" "%char; chr 9; " "%char]); [by vm_compute|done|].
  by repeat constructor.
Defined.

Lemma fold_union (ls : list text) (m : gmap text text) :
  fold_left metadata_step ls m = fold_left metadata_step ls ∅ ∪ m.
Proof.
  revert m; induction ls as [|l ls IH]; intros m.
  - cbn [fold_left]. by rewrite (left_id_L ∅ (∪)).
  - cbn [fold_left]. unfold metadata_step at 2 4.
    destruct (match_metadata l) as [[key value]|]; [|apply IH].
    rewrite IH, (IH (<[_ := _]> ∅)), <- (assoc_L (∪)). f_equal.
    by rewrite insert_union_singleton_l, insert_empty.
Qed.

(** X5. The metadata of two texts put one after the other, a line feed
    between them, is the metadata of the second completed by that of the
    first: the later text wins on the keys that both give. *)
Theorem X5_metadata_of_two_texts (a b : text) :
  extract_metadata (a ++ newline :: b)
  = extract_metadata b ∪ extract_metadata a
  /\ (forall k v, extract_metadata b !! k = Some v ->
                  extract_metadata (a ++ newline :: b) !! k = Some v)
  /\ (forall k, extract_metadata b !! k = None ->
                extract_metadata (a ++ newline :: b) !! k
                = extract_metadata a !! k).
Proof.
  assert (extract_metadata (a ++ newline :: b)
          = extract_metadata b ∪ extract_metadata a) as H.
  { unfold extract_metadata. rewrite split_lines_app, fold_left_app.
    apply fold_union. }
  split; [done|]. rewrite H. split.
  - intros k v Hk. by apply lookup_union_Some_l.
  - intros k Hk. by apply lookup_union_r.
Qed.

(** ** Pages made of text and headings *)

Lemma closes_first_plain level t : lt_sign ∉ t -> closes_first level t = true.
Proof.
  induction t as [|c t IH]; [done|]. intros H.
  cbn [closes_first]. rewrite IH by (intros ?; apply H; by right).
  rewrite andb_true_r. apply negb_true_iff, not_true_is_false.
  intros [r Hr]%starts_with_spec. injection Hr as -> _. apply H. left.
Qed.

Lemma opens_heading_plain t : lt_sign ∉ t -> opens_heading t = false.
Proof.
  unfold opens_heading. induction t as [|c t IH]; [done|]. intros H.
  cbn [lt_then]. rewrite IH by (intros ?; apply H; by right).
  rewrite orb_false_r, bool_decide_eq_false_2; [done|].
  intros ->. apply H. left.
Qed.

Lemma plain_title_ok m : plain_title m -> heading_ok m.
Proof.
  intros (Hl & Hlt & Hnl). split; [done|]. split.
  - apply Forall_forall. intros c Hc. unfold isdot.
    apply negb_true_iff, N.eqb_neq. intros E. apply Hnl.
    replace newline with c; [done|].
    unfold code in E. rewrite <- (ascii_N_embedding c), E. done.
  - by apply closes_first_plain.
Qed.

Lemma match_heading_bare m rest :
  heading_ok m -> match_heading (bare m ++ rest) = Some m.
Proof.
  destruct m as [level t]. intros (Hl & Hdot & Hfirst). cbn [fst snd] in *.
  unfold bare. cbn [fst snd].
  destruct (match_heading_total level t rest Hl Hdot) as [[l' t'] E].
  rewrite E. f_equal.
  destruct (match_heading_spec _ _ _ E) as ((_ & _ & Hfirst') & r & Hr).
  unfold bare_heading in Hr. rewrite <- !app_assoc in Hr. cbn [app fst snd] in *.
  injection Hr as Hlevel Hr. subst l'. f_equal.
  symmetry. by apply (title_unique level t t' rest r).
Qed.

Lemma ends_open_cons c g : ends_open g = true -> ends_open (c :: g) = true.
Proof.
  unfold ends_open. rewrite reverse_cons.
  destruct (reverse g) as [|x [|y [|z r]]]; cbn [app]; [done|..];
    intros H; repeat (apply orb_true_iff in H as [H|H]);
    rewrite ?H, ?orb_true_r; try done.
Qed.

Lemma match_heading_plain g s :
  g <> [] -> plain_text g -> match_heading (g ++ s) = None.
Proof.
  intros Hne [Hopen Hend].
  destruct (match_heading (g ++ s)) as [[level t]|] eqn:E; [|done].
  destruct (match_heading_spec _ _ _ E) as ([Hl _] & r & Hr).
  unfold bare_heading in Hr. rewrite <- !app_assoc in Hr. cbn [app fst] in *.
  destruct g as [|a [|b [|c [|d g]]]]; [done|..]; simplify_eq/=.
  - unfold ends_open in Hend. cbn in Hend. rewrite Hl in Hend.
    repeat case_bool_decide; simplify_eq; done.
  - by rewrite Hl in Hopen.
Qed.

Lemma plain_text_tail c g : plain_text (c :: g) -> g = [] \/ plain_text g.
Proof.
  intros [Hopen Hend]. destruct g as [|d g]; [by left|]. right.
  split; [by apply has_bare_open_tail in Hopen|].
  destruct (ends_open (d :: g)) eqn:E; [|done].
  by rewrite (ends_open_cons c _ E) in Hend.
Qed.

Lemma findall_plain g s : plain_text g -> findall (g ++ s) = findall s.
Proof.
  induction g as [|c g IH]; [done|]. intros Hg.
  change ((c :: g) ++ s) with (c :: (g ++ s)).
  rewrite findall_other by (by apply (match_heading_plain (c :: g) s)).
  destruct (plain_text_tail c g Hg) as [->|Hg']; [done | by apply IH].
Qed.

Lemma annotate_plain g s : plain_text g -> annotate (g ++ s) = g ++ annotate s.
Proof.
  induction g as [|c g IH]; [done|]. intros Hg.
  change ((c :: g) ++ s) with (c :: (g ++ s)).
  rewrite annotate_other by (by apply (match_heading_plain (c :: g) s)).
  cbn [app]. f_equal.
  destruct (plain_text_tail c g Hg) as [->|Hg']; [done | by apply IH].
Qed.

Lemma findall_page blocks rest :
  Forall (fun b => plain_text b.1 /\ heading_ok b.2) blocks ->
  plain_text rest ->
  findall (page bare blocks rest) = map snd blocks
  /\ annotate (page bare blocks rest) = page annotated blocks rest.
Proof.
  intros Hb Hrest. unfold page.
  induction Hb as [|[g m] blocks [Hg Hm] _ [IH1 IH2]]; cbn [flat_map map app fst snd].
  - rewrite <- (app_nil_r rest) at 1 2.
    rewrite findall_plain, annotate_plain by done. by rewrite app_nil_r.
  - rewrite <- !app_assoc.
    rewrite findall_plain, annotate_plain by done.
    pose proof (match_heading_bare m (flat_map (fun b => b.1 ++ bare b.2) blocks
                                       ++ rest) Hm) as E.
    destruct m as [level t].
    rewrite (findall_match _ level t _ E eq_refl),
      (annotate_match _ level t _ E eq_refl).
    by rewrite IH1, IH2.
Qed.

(** X6. A page that is written as texts and bare headings, the texts
    without a bare opening tag [<hN>] and without the start of one at
    their end and every title one line without [<] with a level from 1
    to 6, gives the table of exactly these
    headings, in the order of the page, and comes back with each heading
    carrying its anchor and every text in between as it was. *)
Theorem X6_headings_of_a_page (blocks : list (text * (ascii * text)))
    (rest : text) :
  Forall (fun b => plain_text b.1 /\ plain_title b.2) blocks ->
  plain_text rest ->
  findall (page bare blocks rest) = map snd blocks
  /\ generate_toc (page bare blocks rest)
     = (map (fun b => TocEntry b.2.2 (make_anchor b.2.2)) blocks,
        page annotated blocks rest).
Proof.
  intros Hb Hrest.
  assert (Forall (fun b => plain_text b.1 /\ heading_ok b.2) blocks) as Hb'.
  { eapply Forall_impl; [exact Hb|]. intros b [? ?].
    split; [done | by apply plain_title_ok]. }
  destruct (findall_page blocks rest Hb' Hrest) as [Hf Ha].
  split; [done|]. rewrite generate_toc_annotate.
  - rewrite Hf, Ha. f_equal. by rewrite <- list_fmap_compose.
  - rewrite Hf. apply Forall_fmap. eapply Forall_impl; [exact Hb|].
    intros b [_ (_ & Hlt & _)]. by apply opens_heading_plain.
Qed.

Lemma X6_witness :
  let blocks := [(txt "<p>intro</p>", ("1"%char, txt "Set Up"));
                 ([], ("2"%char, txt "a > b, c"));
                 (txt "<h1 class=x>kept</h1> 1 < 2 ", ("2"%char, txt "Set Up"))] in
  generate_toc (page bare blocks (txt "<hr>"))
  = ([TocEntry (txt "Set Up") (txt "set-up");
      TocEntry (txt "a > b, c") (txt "a->-b,-c");
      TocEntry (txt "Set Up") (txt "set-up")],
     page annotated blocks (txt "<hr>")).
Proof.
  intros blocks.
  destruct (X6_headings_of_a_page blocks (txt "<hr>")) as [_ H].
  - repeat constructor; try done; try (by vm_compute);
      try (apply (bool_decide_unpack _); by vm_compute).
  - split; by vm_compute.
  - exact H.
Defined.

(** ** Where the entries of the table come from *)

Lemma occurs_findall m html : m ∈ findall html -> occurs (bare m) html.
Proof.
  induction html as [|c s Hm IH|level t rest Hm _ IH] using scan_ind.
  - by intros ?%elem_of_nil.
  - rewrite findall_other by done. intros H. by apply (occurs_app_l _ [c]), IH.
  - rewrite (findall_match _ _ _ _ Hm eq_refl).
    intros [->|H]%elem_of_cons.
    + by exists [], rest.
    + by apply occurs_app_l, IH.
Qed.

Lemma findall_length html : 9 * length (findall html) <= length html.
Proof.
  induction html as [|c s Hm IH|level t rest Hm _ IH] using scan_ind.
  - simpl. lia.
  - rewrite findall_other by done. simpl. lia.
  - rewrite (findall_match _ _ _ _ Hm eq_refl), length_app.
    unfold bare_heading. rewrite !length_app. simpl. lia.
Qed.

(** X7. Every entry of the table comes from a heading of the input: its
    title stands in the input between [<hN>] and [</hN>] for a level N
    from 1 to 6, its title holds no line feed, its anchor is the anchor
    of its title; and the table has at most one entry for every nine code
    points of the input. *)
Theorem X7_entries_come_from_headings (html : text) :
  (forall e,
      e ∈ (generate_toc html).1 ->
      exists level,
        is_level level = true
        /\ occurs (bare_heading level (title e)) html
        /\ (newline ∉ title e)
        /\ anchor e = make_anchor (title e))
  /\ length (generate_toc html).1 = length (findall html)
  /\ 9 * length (generate_toc html).1 <= length html.
Proof.
  rewrite generate_toc_entries. split; [|split].
  - intros e (m & -> & Hm)%list_elem_of_fmap. destruct m as [level t].
    pose proof (findall_ok html) as Hok. rewrite Forall_forall in Hok.
    destruct (Hok _ Hm) as (Hl & Hdot & _). cbn [fst snd] in *.
    exists level. split; [done|]. split; [by apply (occurs_findall (level, t))|].
    split; [|done]. cbn [toc_of title snd].
    intros Hin. rewrite Forall_forall in Hdot. by specialize (Hdot _ Hin).
  - by rewrite length_map.
  - rewrite length_map. apply findall_length.
Qed.

(** ** Reading and writing files *)

(** X8. [read_file] logs the path, then returns the content of a file
    that can be read and [None] for a file that does not exist, after an
    error entry in the log; any other failure is raised, and
    [FileNotFoundError] never is.  No file is changed and nothing is
    written. *)
Theorem X8_read_file (file_path : text) (w : world) :
  let w' := (read_file file_path w).2 in
  let entry := (clock w (length (log w)), INFO, ReadingFile file_path) in
  read_file file_path w = (content_of (files w) file_path, w')
  /\ (read_file file_path w).1 <> Raise FileNotFoundError
  /\ ((read_file file_path w).1 = Ok None <-> files w !! file_path = None)
  /\ files w' = files w /\ writes w' = writes w
  /\ log w'
     = log w ++ entry
       :: match files w !! file_path with
          | None => [(clock w (S (length (log w))), ERROR,
                      FileNotFound file_path)]
          | Some _ => []
          end.
Proof.
  unfold read_file, content_of, mbind, io_bind, except_not_found, open_read,
    logging, mret, io_ret. cbn.
  destruct (files w !! file_path) as [[content|]|] eqn:E; cbn;
    repeat split; try done.
  rewrite <- app_assoc, length_app. cbn. by rewrite Nat.add_1_r.
Qed.

Lemma write_file_files (file_path content : text) (w : world) :
  files (write_file file_path content w).2
  = <[file_path := Readable content]> (files w).
Proof. done. Qed.

(** X9. [write_file] puts the content under the path, in place of what
    was there, and touches no other file: the file read next is the
    content written, and of two writes to a path the second one
    stays. *)
Theorem X9_write_then_read (file_path content : text) (w : world) :
  let w' := (write_file file_path content w).2 in
  write_file file_path content w = (Ok tt, w')
  /\ (read_file file_path w').1 = Ok (Some content)
  /\ (forall other, other <> file_path -> files w' !! other = files w !! other)
  /\ writes w' = (file_path, content) :: writes w
  /\ (forall content',
        files (write_file file_path content' w').2
        = files (write_file file_path content' w).2).
Proof.
  intros w'. split; [done|]. split; [|split; [|split; [done|]]].
  - destruct (effect_read_file file_path w') as (w'' & -> & _). cbn [fst].
    unfold content_of, w'. by rewrite write_file_files, lookup_insert_eq.
  - intros other Hne. unfold w'. by rewrite write_file_files, lookup_insert_ne.
  - intros content'. unfold w'. by rewrite !write_file_files, insert_insert_eq.
Qed.

(** ** The variables of the template *)

Lemma call_kwargs_ok (explicit : list (text * value))
    (mapping : gmap text text) :
  (forall kv, kv ∈ explicit -> mapping !! kv.1 = None) ->
  call_kwargs explicit mapping
  = Ok (list_to_map explicit ∪ (VStr <$> mapping)).
Proof.
  intros H. unfold call_kwargs.
  destruct (existsb _ explicit) eqn:E; [|done].
  apply existsb_exists in E as (kv & Hin & Hkv).
  apply bool_decide_eq_true in Hkv. rewrite (H kv) in Hkv.
  - by destruct Hkv.
  - by apply list_elem_of_In.
Qed.

(** X10. When the metadata holds none of the three reserved keys, the
    template is rendered with [html_content], [css_content] and [toc]
    bound to the arguments of [apply_template], every key of the metadata
    bound to its value and no other variable; when it holds one of them
    the call is a [TypeError]. *)
Theorem X10_template_variables (html_content : text)
    (css_content : option text) (toc : list toc_entry)
    (metadata : gmap text text) :
  let explicit := [(txt "html_content", VStr html_content);
                   (txt "css_content", opt_value css_content);
                   (txt "toc", VToc toc)] in
  ((exists k, k ∈ reserved /\ is_Some (metadata !! k)) ->
   call_kwargs explicit metadata = Raise TypeError)
  /\ ((forall k, k ∈ reserved -> metadata !! k = None) ->
      exists context,
        call_kwargs explicit metadata = Ok context
        /\ context !! txt "html_content" = Some (VStr html_content)
        /\ context !! txt "css_content" = Some (opt_value css_content)
        /\ context !! txt "toc" = Some (VToc toc)
        /\ (forall k v, metadata !! k = Some v -> context !! k = Some (VStr v))
        /\ (forall k, k ∉ reserved -> metadata !! k = None ->
                      context !! k = None)).
Proof.
  intros explicit. split.
  - intros (k & Hk & Hm). by apply (call_kwargs_reserved _ _ _ _ k).
  - intros Hnone. eexists. split.
    { apply call_kwargs_ok. intros kv Hkv. apply Hnone.
      unfold explicit, reserved in *. rewrite !elem_of_cons in *.
      destruct Hkv as [->|[->|[->|?%elem_of_nil]]]; tauto. }
    assert (forall k x, k ∈ reserved ->
              (list_to_map explicit : gmap text value) !! k = Some x ->
              (list_to_map explicit ∪ (VStr <$> metadata)) !! k = Some x)
      as Hleft.
    { intros k x _ Hx. by apply lookup_union_Some_l. }
    split; [apply Hleft; [unfold reserved; set_solver | done]|].
    split; [apply Hleft; [unfold reserved; set_solver | done]|].
    split; [apply Hleft; [unfold reserved; set_solver | done]|].
    split.
    + intros k v Hv. rewrite lookup_union_r.
      * by rewrite lookup_fmap, Hv.
      * apply not_elem_of_list_to_map_1. intros Hin.
        assert (k ∈ reserved) as Hr by exact Hin.
        rewrite (Hnone k Hr) in Hv. done.
    + intros k Hk Hm. apply lookup_union_None_2.
      * by apply not_elem_of_list_to_map_1.
      * by rewrite lookup_fmap, Hm.
Qed.
